(** * RoboDoc v1: the image-difference pipeline of [robodoc.py]

    A shallow embedding of the processing functions of [src/robodoc.py]
    ([findcontours], [save_selected_contours],
    [CropDialog.get_crop_coordinates], [InjuryDetectionApp.crop_control],
    [InjuryDetectionApp.save_selected_contours]) and the properties the
    specification states about them.

    numpy arrays are lists of rows; a colour pixel is a BGR triple of
    integers, a grey pixel an integer.  Python integers are [Z], Python
    floats are IEEE binary64 ([PrimFloat]).  The OpenCV operations that are
    pixel-wise are written out; those that are geometry or filtering
    (resampling, Gaussian smoothing, contour tracing, rasterisation of
    strokes and fills) are the fields of the interface [Cv2]. *)

From Stdlib Require Import ZArith Floats Uint63 Lia.
From stdpp Require Import base list strings gmap.

Open Scope Z_scope.

(** ** Arrays and pixels *)

Abbreviation matrix A := (list (list A)) (only parsing).

Record bgr : Type := BGR { blue : Z; green : Z; red : Z }.

Record bgra : Type := BGRA { c_b : Z; c_g : Z; c_r : Z; c_alpha : Z }.

#[global] Instance bgr_eq_dec : EqDecision bgr.
Proof. solve_decision. Defined.

#[global] Instance bgra_eq_dec : EqDecision bgra.
Proof. solve_decision. Defined.

(** An [ndarray] holding an image: two-dimensional (one channel) or
    three-dimensional with three channels. *)
Inductive image : Type :=
  | Gray (m : matrix Z)
  | Color (m : matrix bgr).

Definition point : Type := (Z * Z)%type.
Definition contour : Type := list point.

Inductive exn : Type :=
  | ValueError
  | OverflowError
  | cv2_error.

Inductive result (A : Type) : Type :=
  | Ok (a : A)
  | Raise (e : exn).
Arguments Ok {A} a.
Arguments Raise {A} e.

#[global] Instance result_ret : MRet result := fun _ a => Ok a.

#[global] Instance result_bind : MBind result := fun _ _ k c =>
  match c with
  | Ok a => k a
  | Raise e => Raise e
  end.

Definition black : bgr := BGR 0 0 0.
Definition white : bgr := BGR 255 255 255.

Definition uint8 (p : Z) : Prop := 0 <= p < 256.
Definition uint8_bgr (p : bgr) : Prop :=
  uint8 (blue p) /\ uint8 (green p) /\ uint8 (red p).

(** [a.shape[0]] and [a.shape[1]]. *)
Definition height {A} (m : matrix A) : nat := length m.
Definition width {A} (m : matrix A) : nat :=
  match m with
  | [] => 0%nat
  | row :: _ => length row
  end.

(** Every row of an [h]-by-[w] array has [w] entries. *)
Definition rect {A} (h w : nat) (m : matrix A) : Prop :=
  length m = h /\ Forall (fun row => length row = w) m.

Definition img_height (i : image) : nat :=
  match i with Gray m => height m | Color m => height m end.
Definition img_width (i : image) : nat :=
  match i with Gray m => width m | Color m => width m end.

Definition is_empty (i : image) : bool :=
  (img_height i =? 0)%nat || (img_width i =? 0)%nat.

(** ** Pixel-wise OpenCV and numpy operations *)

(** [cv2.cvtColor(_, cv2.COLOR_BGR2GRAY)] on 8-bit pixels: the fixed-point
    luminance 0.114 B + 0.587 G + 0.299 R with 15 fractional bits, rounded. *)
Definition gray_of_bgr (p : bgr) : Z :=
  Z.shiftr (3735 * blue p + 19235 * green p + 9798 * red p + 16384) 15.

Definition cvtColor_BGR2GRAY (m : matrix bgr) : matrix Z :=
  map (map gray_of_bgr) m.

(** [cv2.cvtColor(img, BGR2GRAY) if len(img.shape) == 3 else img]. *)
Definition to_gray (i : image) : matrix Z :=
  match i with
  | Color m => cvtColor_BGR2GRAY m
  | Gray m => m
  end.

(** [cv2.absdiff] of two single-channel arrays of one size (the resize
    contract gives the sizes). *)
Definition absdiff (a b : matrix Z) : matrix Z :=
  zip_with (zip_with (fun p q => Z.abs (p - q))) a b.

(** [cv2.threshold(src, thresh, maxval, cv2.THRESH_BINARY)[1]]. *)
Definition threshold (src : matrix Z) (thresh maxval : Z) : matrix Z :=
  map (map (fun p => if thresh <? p then maxval else 0)) src.

Definition and_bgr (p q : bgr) : bgr :=
  BGR (Z.land (blue p) (blue q)) (Z.land (green p) (green q))
      (Z.land (red p) (red q)).

(** [cv2.bitwise_and] of two colour arrays of one size. *)
Definition bitwise_and (a b : matrix bgr) : matrix bgr :=
  zip_with (zip_with and_bgr) a b.

(** [np.zeros_like(a)] and [np.zeros(a.shape, dtype=np.uint8)]. *)
Definition zeros_like (a : matrix bgr) : matrix bgr :=
  map (map (fun _ => black)) a.

(** [a[:, x]] of a single-channel array. *)
Definition column (a : matrix Z) (x : nat) : list Z :=
  map (fun row => default 0 (row !! x)) a.

(** [cv2.countNonZero]. *)
Definition countNonZero (v : list Z) : nat :=
  length (filter (fun p => p <> 0) v).

(** [np.where(v > 0)[0]]: the indices of the positive entries, ascending. *)
Definition where_pos (v : list Z) : list nat :=
  omap (fun '(y, p) => if 0 <? p then Some y else None)
       (zip (seq 0 (length v)) v).

(** [np.hstack([a, b, c])] of three arrays with the same number of rows. *)
Definition hstack3 {A} (a b c : matrix A) : matrix A :=
  zip_with app a (zip_with app b c).

(** Writing [color] into every pixel that a drawing primitive covers;
    [cover x y] tells whether the primitive touches column [x], row [y]. *)
Definition paint {A} (cover : nat -> nat -> bool) (color : A)
    (img : matrix A) : matrix A :=
  imap (fun y row => imap (fun x p => if cover x y then color else p) row) img.

(** [cv2.split] followed by [cv2.merge([b, g, r, alpha])]. *)
Definition merge_bgra (res : matrix bgr) (alpha : matrix Z) : matrix bgra :=
  zip_with (zip_with (fun p a => BGRA (blue p) (green p) (red p) a)) res alpha.

(** The thickness constant [cv2.FILLED]. *)
Definition FILLED : Z := -1.
(** The border constant [cv2.BORDER_DEFAULT], which the source passes in the
    position of the smoothing parameter sigma. *)
Definition BORDER_DEFAULT : Z := 4.

(** ** The OpenCV operations taken as an interface *)

Class Cv2 : Type := {
  (** the interpolation of [cv2.resize(src, (w, h))] *)
  resample : image -> nat -> nat -> image;
  (** [cv2.GaussianBlur(src, ksize, sigma)] *)
  GaussianBlur : matrix Z -> nat * nat -> Z -> matrix Z;
  (** [cv2.findContours(src, cv2.RETR_EXTERNAL, cv2.CHAIN_APPROX_NONE)[0]] *)
  findContours : matrix Z -> list contour;
  (** the pixels [cv2.drawContours(_, contours, -1, _, thickness)] touches *)
  contour_cover : list contour -> Z -> nat -> nat -> bool;
  (** the pixels [cv2.polylines(_, lines, False, _, thickness)] touches *)
  polyline_cover : list (list point) -> Z -> nat -> nat -> bool
}.

Definition all_zero (m : matrix Z) : Prop := Forall (Forall (fun p => p = 0)) m.

(** What the properties below use of OpenCV: resizing to the size an image
    already has copies it, smoothing a zero map gives the zero map, and a
    zero mask has no contour. *)
Class Cv2Laws (cv : Cv2) : Prop := {
  resample_same_size :
    forall i, resample i (img_width i) (img_height i) = i;
  GaussianBlur_zero :
    forall m ksize sigma, all_zero m -> GaussianBlur m ksize sigma = m;
  findContours_zero :
    forall m, all_zero m -> findContours m = []
}.

(** ** Writing an image file *)

(** What [cv2.imwrite] depends on beside the image: whether OpenCV has an
    encoder for the extension of the file name, and whether the file system
    lets the file be written. *)
Class Imwrite : Type := {
  has_encoder : string -> bool;
  can_write : string -> bool
}.

(** [cv2.imwrite(filepath, img)] with the files on disk as state: it raises
    when no encoder matches the file name, returns [False] and writes
    nothing when the file cannot be written, and returns [True] after
    writing. *)
Definition imwrite `{Imwrite} (filepath : string) (img : matrix bgra)
    (disk : gmap string (matrix bgra))
    : gmap string (matrix bgra) * result bool :=
  if has_encoder filepath then
    if can_write filepath then (<[filepath := img]> disk, Ok true)
    else (disk, Ok false)
  else (disk, Raise cv2_error).

(** ** Library calls built on the interface *)

(** [cv2.resize(src, (w, h))]: an empty source or an empty target size is an
    OpenCV assertion failure. *)
Definition cv2_resize `{Cv2} (src : image) (w h : nat) : result image :=
  if is_empty src || (w =? 0)%nat || (h =? 0)%nat then Raise cv2_error
  else Ok (resample src w h).

(** [cv2.drawContours(img, contours, -1, color, thickness)]; with no contour
    the call returns at once and [img] is left as it is. *)
Definition drawContours `{Cv2} (img : matrix bgr) (contours : list contour)
    (color : bgr) (thickness : Z) : matrix bgr :=
  match contours with
  | [] => img
  | _ :: _ => paint (contour_cover contours thickness) color img
  end.

(** [cv2.polylines(img, lines, isClosed=False, color, thickness)]. *)
Definition polylines `{Cv2} (img : matrix bgr) (lines : list (list point))
    (color : bgr) (thickness : Z) : matrix bgr :=
  paint (polyline_cover lines thickness) color img.

(** [range(0, stop, step)] for [step >= 1], as the loop that produces it:
    [i] starts at [0] and grows by [step] while [i < stop].  The loop runs at
    most [stop] times, which is the fuel [py_range] gives it. *)
Fixpoint range_from (fuel i stop step : nat) : list nat :=
  match fuel with
  | O => []
  | S fuel' =>
      if (i <? stop)%nat then i :: range_from fuel' (i + step) stop step
      else []
  end.

Definition py_range (stop step : nat) : list nat :=
  range_from stop 0 stop step.

(** ** [findcontours]: the stages *)

(** Lines 114-120, "Generate line coordinates". *)
Definition line_coordinates (result_gray : matrix Z) : list (list point) :=
  omap (fun x =>
          let col_pixels := column result_gray x in
          if (countNonZero col_pixels =? 0)%nat then None
          else Some (map (fun y => (Z.of_nat x, Z.of_nat y))
                         (where_pos col_pixels)))
       (seq 0 (width result_gray)).

(** Lines 122-127, "Create lines". *)
Definition create_lines (line_coordinates_np : list (list point))
    (linestep : Z) : list (list point) :=
  omap (fun i =>
          if (i <? length line_coordinates_np)%nat
          then line_coordinates_np !! i else None)
       (py_range (length line_coordinates_np) (Z.to_nat (Z.max 1 linestep))).

(** Lines 110-112, "Apply mask". *)
Definition apply_mask (original mask : matrix bgr) : matrix Z :=
  cvtColor_BGR2GRAY (bitwise_and original mask).

(** The local variables of one run of [findcontours]. *)
Record findcontours_locals : Type := {
  l_image2 : image;
  l_difference : matrix Z;
  l_blur : matrix Z;
  l_thresh : matrix Z;
  l_contours : list contour;
  l_contoured : matrix bgr;
  l_mask : matrix bgr;
  l_result_gray : matrix Z;
  l_line_coordinates : list (list point);
  l_lines : list (list point);
  l_lined : matrix bgr;
  l_combined : matrix bgr
}.

Section Findcontours.
Context `{cv : Cv2}.

(** Lines 90-100, for a subject and a resized control of either kind. *)
Definition difference_map (image1 image2 : image) : matrix Z :=
  let gray_image1 := to_gray image1 in
  let gray_image2 := to_gray image2 in
  absdiff gray_image2 gray_image1.

Definition smoothed_map (image1 image2 : image) : matrix Z :=
  GaussianBlur (difference_map image1 image2) (19%nat, 19%nat)
               BORDER_DEFAULT.

Definition segmentation_mask (image1 image2 : image) (threshvalue : Z)
    : matrix Z :=
  threshold (smoothed_map image1 image2) threshvalue 255.

Definition external_contours (image1 image2 : image) (threshvalue : Z)
    : list contour :=
  findContours (segmentation_mask image1 image2 threshvalue).

(** Lines 88-135 for a colour subject [original] and the resized control
    [image2]. *)
Definition findcontours_body (original : matrix bgr) (image2 : image)
    (threshvalue linestep : Z) : findcontours_locals :=
  let difference := difference_map (Color original) image2 in
  let blur := smoothed_map (Color original) image2 in
  let thresh := segmentation_mask (Color original) image2 threshvalue in
  let contours := external_contours (Color original) image2 threshvalue in
  let contoured := drawContours original contours black 5 in
  let mask := drawContours (zeros_like original) contours white FILLED in
  let result_gray := apply_mask original mask in
  let line_coords := line_coordinates result_gray in
  let lines := create_lines line_coords linestep in
  let lined :=
    match lines with
    | [] => contoured
    | _ :: _ => polylines contoured lines white 2
    end in
  {| l_image2 := image2; l_difference := difference; l_blur := blur;
     l_thresh := thresh; l_contours := contours; l_contoured := contoured;
     l_mask := mask; l_result_gray := result_gray;
     l_line_coordinates := line_coords; l_lines := lines; l_lined := lined;
     l_combined := hstack3 original contoured lined |}.

(** [findcontours] up to its [return]: the [None] test, the resize, and
    the body.  A single-channel subject passes every step up to line 112,
    where [cv2.cvtColor(result, BGR2GRAY)] rejects it; the steps before it
    have no effect outside the call. *)
Definition findcontours_run (image1 image2 : option image)
    (threshvalue linestep : Z) : result findcontours_locals :=
  match image1, image2 with
  | Some image1, Some image2 =>
      image2 ← cv2_resize image2 (img_width image1) (img_height image1);
      match image1 with
      | Gray _ => Raise cv2_error
      | Color original =>
          Ok (findcontours_body original image2 threshvalue linestep)
      end
  | _, _ => Raise ValueError
  end.

(** [findcontours(image1, image2, threshvalue, linestep)]; the handler
    prints and raises again. *)
Definition findcontours (image1 image2 : option image)
    (threshvalue linestep : Z) : result (image * list contour) :=
  l ← findcontours_run image1 image2 threshvalue linestep;
  mret (Color (l_combined l), l_contours l).

(** ** [save_selected_contours] *)

Definition fill_mask (img : matrix bgr) (contours : list contour)
    : matrix bgr :=
  drawContours (zeros_like img) contours white FILLED.

(** The local [rgba] of lines 144-151. *)
Definition export_rgba (img : matrix bgr) (contours : list contour)
    : matrix bgra :=
  let mask := fill_mask img contours in
  let result := bitwise_and img mask in
  let alpha := cvtColor_BGR2GRAY mask in
  merge_bgra result alpha.

Context `{io : Imwrite}.

(** [save_selected_contours(image, contours, filepath)] with the files on
    disk as state.  OpenCV rejects an empty [image]; a single-channel
    [image] fails at [b, g, r = cv2.split(result)]; what [cv2.imwrite]
    returns is not looked at, and what it raises is raised again. *)
Definition save_selected_contours (img : image) (contours : list contour)
    (filepath : string) (disk : gmap string (matrix bgra))
    : gmap string (matrix bgra) * result unit :=
  if is_empty img then (disk, Raise cv2_error)
  else
    match img with
    | Gray _ => (disk, Raise ValueError)
    | Color m =>
        match imwrite filepath (export_rgba m contours) disk with
        | (disk', Ok _) => (disk', Ok tt)
        | (disk', Raise e) => (disk', Raise e)
        end
    end.
End Findcontours.

(** Foreground pixels of a segmentation mask. *)
Definition row_foreground (row : list Z) : nat :=
  length (filter (fun p => p = 255) row).
Definition foreground_count (m : matrix Z) : nat :=
  sum_list (map row_foreground m).

(** Columns of a single-channel array that hold a non-zero pixel. *)
Definition nonempty_columns (g : matrix Z) : list nat :=
  filter (fun x => countNonZero (column g x) <> 0%nat) (seq 0 (width g)).

(** The ceiling of [n / k]. *)
Definition ceil_div (n k : Z) : Z := (n + k - 1) / k.

(** Rows of column [x] where the fill mask is foreground. *)
Definition mask_rows (mask : matrix bgr) (x : nat) : list nat :=
  omap (fun '(y, row) =>
          if decide (row !! x = Some white) then Some y else None)
       (zip (seq 0 (length mask)) mask).

(** ** Python numbers *)

(** An integer as a float; exact below 2^53, which covers pixel
    coordinates and image sizes. *)
Definition float_of_Z (z : Z) : float :=
  if z <? 0 then PrimFloat.opp (PrimFloat.of_uint63 (Uint63.of_Z (- z)))
  else PrimFloat.of_uint63 (Uint63.of_Z z).

(** [a / b] on integers (true division), [b] not zero. *)
Definition true_div (a b : Z) : float :=
  PrimFloat.div (float_of_Z a) (float_of_Z b).

(** [int(f)]: truncation toward zero; Python raises on an infinity and on
    a NaN. *)
Definition py_int (f : float) : result Z :=
  match Prim2SF f with
  | S754_zero _ => Ok 0
  | S754_finite s m e =>
      let magnitude :=
        match e with
        | Z0 => Zpos m
        | Zpos p => Zpos m * 2 ^ Zpos p
        | Zneg p => Zpos m / 2 ^ Zpos p
        end in
      Ok (if s then - magnitude else magnitude)
  | S754_infinity _ => Raise OverflowError
  | S754_nan => Raise ValueError
  end.

(** [a[lo:hi]] with Python's treatment of negative and oversized bounds. *)
Definition py_slice {A} (lo hi : Z) (l : list A) : list A :=
  let n := Z.of_nat (length l) in
  let norm i := if i <? 0 then Z.max 0 (i + n) else Z.min i n in
  take (Z.to_nat (norm hi - norm lo)) (drop (Z.to_nat (norm lo)) l).

(** [img[y:y+h, x:x+w].copy()]. *)
Definition crop {A} (m : matrix A) (x y w h : Z) : matrix A :=
  map (py_slice x (x + w)) (py_slice y (y + h) m).

Definition img_crop (i : image) (x y w h : Z) : image :=
  match i with
  | Gray m => Gray (crop m x y w h)
  | Color m => Color (crop m x y w h)
  end.

(** [a.size]: the number of array elements. *)
Definition img_size (i : image) : nat :=
  match i with
  | Gray m => (height m * width m)%nat
  | Color m => (height m * width m * 3)%nat
  end.

(** ** [CropDialog] *)

Module CropDialog.

(** A [QRect]: left, top, width, height. *)
Record QRect : Type := { rx : Z; ry : Z; rwidth : Z; rheight : Z }.

(** [QRect.isEmpty()]: left > right or top > bottom. *)
Definition isEmpty (r : QRect) : bool :=
  (rwidth r <=? 0) || (rheight r <=? 0).

Record t : Type := {
  original_w : Z;
  original_h : Z;
  scale_x : float;
  scale_y : float;
  crop_rect : option QRect
}.

(** The attributes [__init__] sets from the image size and the size of
    the display pixmap (lines 167, 176, 177), with the rectangle the mouse
    handlers stored. *)
Definition init (ow oh display_w display_h : Z) (r : option QRect) : t :=
  {| original_w := ow; original_h := oh;
     scale_x := true_div ow display_w;
     scale_y := true_div oh display_h;
     crop_rect := r |}.

(** [int(v * scale)]. *)
Definition scaled (v : Z) (scale : float) : result Z :=
  py_int (PrimFloat.mul (float_of_Z v) scale).

Definition get_crop_coordinates (self : t)
    : result (option (Z * Z * Z * Z)) :=
  match crop_rect self with
  | None => Ok None
  | Some r =>
      if isEmpty r then Ok None
      else
        x0 ← scaled (rx r) (scale_x self);
        let x := Z.max 0 x0 in
        y0 ← scaled (ry r) (scale_y self);
        let y := Z.max 0 y0 in
        w ← scaled (rwidth r) (scale_x self);
        h ← scaled (rheight r) (scale_y self);
        let x := Z.min x (original_w self - 1) in
        let y := Z.min y (original_h self - 1) in
        let w := Z.min w (original_w self - x) in
        let h := Z.min h (original_h self - y) in
        Ok (Some (x, y, w, h))
  end.

End CropDialog.

(** ** [InjuryDetectionApp] *)

Module InjuryDetectionApp.

(** The attributes of the application object that the handlers below read
    or write, and the enabled flag of the "Analyze Image" button. *)
Record t : Type := {
  injury_img : option image;
  cropped_control : option image;
  result_img : option image;
  contours : option (list contour);
  threshvalue : Z;
  linestep : Z;
  result_btn_enabled : bool
}.

(** The [QMessageBox] a handler shows: kind, title. *)
Inductive message : Type :=
  | warning (title text : string)
  | information (title : string)
  | critical (title : string).

Definition set_cropped (self : t) (c : image) : t :=
  {| injury_img := injury_img self; cropped_control := Some c;
     result_img := result_img self; contours := contours self;
     threshvalue := threshvalue self; linestep := linestep self;
     result_btn_enabled := result_btn_enabled self |}.

Definition enable_result_btn (self : t) : t :=
  {| injury_img := injury_img self; cropped_control := cropped_control self;
     result_img := result_img self; contours := contours self;
     threshvalue := threshvalue self; linestep := linestep self;
     result_btn_enabled := true |}.

(** [crop_control]; [accepted] tells whether the dialog was closed with
    OK and [coords] is what [dialog.get_crop_coordinates()] gave. *)
Definition crop_control (self : t) (accepted : bool)
    (coords : result (option (Z * Z * Z * Z))) : t * option message :=
  match injury_img self with
  | None => (self, None)
  | Some img =>
      if accepted then
        match coords with
        | Raise _ => (self, Some (critical "Crop Error"))
        | Ok None =>
            (self, Some (warning "No Selection"
                                 "Please select a region to crop."))
        | Ok (Some (x, y, w, h)) =>
            if (w <=? 10) || (h <=? 10) then
              (self, Some (warning "Invalid Selection"
                                   "Selected region is too small."))
            else
              let cropped := img_crop img x y w h in
              let self := set_cropped self cropped in
              if (img_size cropped =? 0)%nat then
                (self, Some (warning "Crop Error" "Failed to crop image."))
              else
                (enable_result_btn self, Some (information "Success"))
        end
      else (self, None)
  end.

(** The "Export Contours" handler; [path] is what the file dialog gave
    (empty when it was cancelled). *)
Definition save_selected_contours `{cv : Cv2} `{io : Imwrite} (self : t)
    (path : string) (disk : gmap string (matrix bgra))
    : gmap string (matrix bgra) * option message :=
  match injury_img self, contours self with
  | Some img, Some cs =>
      if decide (path = "") then (disk, None)
      else
        match save_selected_contours img cs path disk with
        | (disk', Ok _) => (disk', Some (information "Export Successful"))
        | (disk', Raise _) => (disk', Some (critical "Export Error"))
        end
  | _, _ => (disk, None)
  end.

End InjuryDetectionApp.

(** ** A small instance of the interface

    Used to run the pipeline on concrete arrays: nearest-neighbour
    resampling (a copy when the size is unchanged), no smoothing, one
    single-point contour per foreground pixel, and strokes and fills that
    cover exactly the points they are given. *)

Definition nearest {A} (d : A) (m : matrix A) (w h : nat) : matrix A :=
  map (fun y =>
         let row := default [] (m !! (y * height m / h)%nat) in
         map (fun x => default d (row !! (x * width m / w)%nat)) (seq 0 w))
      (seq 0 h).

Definition small_resample (i : image) (w h : nat) : image :=
  if (w =? img_width i)%nat && (h =? img_height i)%nat then i
  else match i with
       | Gray m => Gray (nearest 0 m w h)
       | Color m => Color (nearest black m w h)
       end.

Fixpoint row_contours (y x : Z) (row : list Z) : list contour :=
  match row with
  | [] => []
  | p :: row' =>
      (if decide (p = 0) then [] else [[(x, y)]]) ++ row_contours y (x + 1) row'
  end.

Fixpoint pixel_contours (y : Z) (m : matrix Z) : list contour :=
  match m with
  | [] => []
  | row :: m' => row_contours y 0 row ++ pixel_contours (y + 1) m'
  end.

Definition on_points (ps : list (list point)) (x y : nat) : bool :=
  bool_decide ((Z.of_nat x, Z.of_nat y) ∈ concat ps).

Definition small_cv2 : Cv2 :=
  {| resample := small_resample;
     GaussianBlur := fun m _ _ => m;
     findContours := pixel_contours 0;
     contour_cover := fun cs _ => on_points cs;
     polyline_cover := fun ls _ => on_points ls |}.

(** A file system for the examples: OpenCV has an encoder for the names
    that end in ".png", and every file can be written. *)
Definition ends_with (suffix s : string) : bool :=
  String.eqb
    (String.substring (String.length s - String.length suffix)
               (String.length suffix) s)
    suffix.

Definition png_files : Imwrite :=
  {| has_encoder := ends_with ".png"; can_write := fun _ => true |}.


(** The pixels that the contour outlines of [findcontours] touch (thickness
    5; none when there is no contour), and the pixels that its scan lines
    touch (thickness 2; none when there is no line). *)
Definition outline_covers `{Cv2} (contours : list contour) (x y : nat)
    : bool :=
  match contours with
  | [] => false
  | _ :: _ => contour_cover contours 5 x y
  end.

Definition scan_line_covers `{Cv2} (lines : list (list point)) (x y : nat)
    : bool :=
  match lines with
  | [] => false
  | _ :: _ => polyline_cover lines 2 x y
  end.

(** A uniform colour image of [w] by [h] pixels. *)
Definition uniform (w h : nat) (p : bgr) : image :=
  Color (replicate h (replicate w p)).

(** [m[y][x]], when the pixel exists. *)
Definition pixel {A} (m : matrix A) (x y : nat) : option A :=
  m !! y ≫= (.!! x).

(** The candidate lines as the specification words them, from the fill mask
    alone: one line per column of the mask with a foreground row, one point
    per foreground row. *)
Definition mask_line_coordinates (mask : matrix bgr) : list (list point) :=
  omap (fun x =>
          match mask_rows mask x with
          | [] => None
          | rows => Some (map (fun y => (Z.of_nat x, Z.of_nat y)) rows)
          end)
       (seq 0 (width mask)).

(** A pixel that the fill mask selects and where the subject's luminance is
    not zero. *)
Definition lit (original mask : matrix bgr) (x y : nat) : bool :=
  match pixel mask x y, pixel original x y with
  | Some m, Some p => bool_decide (m = white) && (0 <? gray_of_bgr p)
  | _, _ => false
  end.

Definition lit_rows (original mask : matrix bgr) (x : nat) : list nat :=
  filter (fun y => lit original mask x y = true) (seq 0 (height original)).

Definition lit_columns (original mask : matrix bgr) : list nat :=
  filter (fun x => lit_rows original mask x <> []) (seq 0 (width original)).

(** Every channel of every pixel is an 8-bit value. *)
Definition uint8_image (img : matrix bgr) : Prop :=
  Forall (Forall uint8_bgr) img.

(** Every pixel is background (black) or foreground (white). *)
Definition binary_mask (mask : matrix bgr) : Prop :=
  Forall (Forall (fun q => q = black \/ q = white)) mask.

(** Entry [y] of a vector is positive. *)
Definition positive_at (v : list Z) (y : nat) : Prop :=
  exists p, v !! y = Some p /\ 0 < p.

#[global] Instance positive_at_dec v y : Decision (positive_at v y).
Proof.
  unfold positive_at. destruct (v !! y) as [p|].
  - destruct (decide (0 < p)); [left; eauto|right].
    intros (q & [= <-] & ?). done.
  - right. intros (q & [=] & _).
Defined.

(** A fully transparent pixel. *)
Definition transparent : bgra := BGRA 0 0 0 0.

Definition img_rect (h w : nat) (i : image) : Prop :=
  match i with
  | Gray m => rect h w m
  | Color m => rect h w m
  end.

(** The contour set a call returns, or the exception it raises. *)
Definition returned_contours (r : result (image * list contour))
    : result (list contour) :=
  match r with
  | Ok (_, contours) => Ok contours
  | Raise e => Raise e
  end.

(** The message of [crop_control] for a region that is too small, and its
    outcome for a region it accepts. *)
Definition too_small : option InjuryDetectionApp.message :=
  Some (InjuryDetectionApp.warning "Invalid Selection"
                                   "Selected region is too small.").

Definition accepted (self : InjuryDetectionApp.t) (img : image)
    (x y w h : Z) : InjuryDetectionApp.t * option InjuryDetectionApp.message :=
  (InjuryDetectionApp.enable_result_btn
     (InjuryDetectionApp.set_cropped self (img_crop img x y w h)),
   Some (InjuryDetectionApp.information "Success")).

(** The application object after [upload_injury] stored [img]. *)
Definition loaded (img : image) : InjuryDetectionApp.t :=
  {| InjuryDetectionApp.injury_img := Some img;
     InjuryDetectionApp.cropped_control := None;
     InjuryDetectionApp.result_img := None;
     InjuryDetectionApp.contours := None;
     InjuryDetectionApp.threshvalue := 50;
     InjuryDetectionApp.linestep := 10;
     InjuryDetectionApp.result_btn_enabled := false |}.

(** ** The application window

    The object of [InjuryDetectionApp] together with the enabled flags of
    the other buttons, and the handlers that assign attributes.  Message
    boxes, labels and written files are left out here: they do not feed
    back into the attributes. *)

Module InjuryDetectionUi.

Record t : Type := {
  self : InjuryDetectionApp.t;
  crop_btn : bool;
  save_btn : bool;
  save_contour_btn : bool
}.

(** [__init__] and [setup_ui]: nothing loaded, every button but "Upload"
    disabled, the sliders at 50 and 10. *)
Definition init : t :=
  {| self :=
       {| InjuryDetectionApp.injury_img := None;
          InjuryDetectionApp.cropped_control := None;
          InjuryDetectionApp.result_img := None;
          InjuryDetectionApp.contours := None;
          InjuryDetectionApp.threshvalue := 50;
          InjuryDetectionApp.linestep := 10;
          InjuryDetectionApp.result_btn_enabled := false |};
     crop_btn := false; save_btn := false; save_contour_btn := false |}.

Definition with_self (u : t) (s : InjuryDetectionApp.t) : t :=
  {| self := s; crop_btn := crop_btn u; save_btn := save_btn u;
     save_contour_btn := save_contour_btn u |}.

(** [upload_injury]; [path] is what the file dialog gave and [file] what
    [cv2.imread(path)] gave.  The attributes [result_img] and [contours] are
    not reset. *)
Definition upload_injury (u : t) (path : string) (file : option image) : t :=
  if decide (path = "") then u
  else
    match file with
    | None => u
    | Some (Gray _) => u
    | Some (Color m) =>
        {| self :=
             {| InjuryDetectionApp.injury_img := Some (Color m);
                InjuryDetectionApp.cropped_control := None;
                InjuryDetectionApp.result_img :=
                  InjuryDetectionApp.result_img (self u);
                InjuryDetectionApp.contours :=
                  InjuryDetectionApp.contours (self u);
                InjuryDetectionApp.threshvalue :=
                  InjuryDetectionApp.threshvalue (self u);
                InjuryDetectionApp.linestep :=
                  InjuryDetectionApp.linestep (self u);
                InjuryDetectionApp.result_btn_enabled := false |};
           crop_btn := true; save_btn := false; save_contour_btn := false |}
    end.

Definition update_thresh (u : t) (val : Z) : t :=
  with_self u
    {| InjuryDetectionApp.injury_img :=
         InjuryDetectionApp.injury_img (self u);
       InjuryDetectionApp.cropped_control :=
         InjuryDetectionApp.cropped_control (self u);
       InjuryDetectionApp.result_img :=
         InjuryDetectionApp.result_img (self u);
       InjuryDetectionApp.contours := InjuryDetectionApp.contours (self u);
       InjuryDetectionApp.threshvalue := val;
       InjuryDetectionApp.linestep := InjuryDetectionApp.linestep (self u);
       InjuryDetectionApp.result_btn_enabled :=
         InjuryDetectionApp.result_btn_enabled (self u) |}.

Definition update_line (u : t) (val : Z) : t :=
  with_self u
    {| InjuryDetectionApp.injury_img :=
         InjuryDetectionApp.injury_img (self u);
       InjuryDetectionApp.cropped_control :=
         InjuryDetectionApp.cropped_control (self u);
       InjuryDetectionApp.result_img :=
         InjuryDetectionApp.result_img (self u);
       InjuryDetectionApp.contours := InjuryDetectionApp.contours (self u);
       InjuryDetectionApp.threshvalue :=
         InjuryDetectionApp.threshvalue (self u);
       InjuryDetectionApp.linestep := val;
       InjuryDetectionApp.result_btn_enabled :=
         InjuryDetectionApp.result_btn_enabled (self u) |}.

(** [show_result] from the call of [findcontours] on (lines 700-715): the
    results are stored and the two save buttons enabled when the call
    returns; when it raises, the handler shows a message and assigns
    nothing. *)
Definition analyse `{Cv2} (u : t) : t :=
  match findcontours (InjuryDetectionApp.injury_img (self u))
                     (InjuryDetectionApp.cropped_control (self u))
                     (InjuryDetectionApp.threshvalue (self u))
                     (InjuryDetectionApp.linestep (self u)) with
  | Ok (combined, contours) =>
      {| self :=
           {| InjuryDetectionApp.injury_img :=
                InjuryDetectionApp.injury_img (self u);
              InjuryDetectionApp.cropped_control :=
                InjuryDetectionApp.cropped_control (self u);
              InjuryDetectionApp.result_img := Some combined;
              InjuryDetectionApp.contours := Some contours;
              InjuryDetectionApp.threshvalue :=
                InjuryDetectionApp.threshvalue (self u);
              InjuryDetectionApp.linestep :=
                InjuryDetectionApp.linestep (self u);
              InjuryDetectionApp.result_btn_enabled :=
                InjuryDetectionApp.result_btn_enabled (self u) |};
         crop_btn := crop_btn u; save_btn := true; save_contour_btn := true |}
  | Raise _ => u
  end.

(** What the user does.  A click reaches its handler only while the button
    is enabled.  [show_result] calls [QApplication.processEvents()] before
    the analysis, which runs the handlers of the events that are pending at
    that moment: [click_result] carries them.  The dialogs that the other
    handlers open are modal. *)
#[local] Set Warnings "-register-all".
Inductive event : Type :=
  | click_upload (path : string) (file : option image)
  | click_crop (accepted : bool) (coords : result (option (Z * Z * Z * Z)))
  | move_thresh (val : Z)
  | move_line (val : Z)
  | click_result (pending : list event)
  | click_save (path : string)
  | click_save_contour (path : string).

Fixpoint step `{Cv2} (u : t) (e : event) {struct e} : t :=
  match e with
  | click_upload path file => upload_injury u path file
  | click_crop accepted coords =>
      if crop_btn u then
        with_self u
          (fst (InjuryDetectionApp.crop_control (self u) accepted coords))
      else u
  | move_thresh val => update_thresh u val
  | move_line val => update_line u val
  | click_result pending =>
      if InjuryDetectionApp.result_btn_enabled (self u) then
        match InjuryDetectionApp.injury_img (self u),
              InjuryDetectionApp.cropped_control (self u) with
        | Some _, Some _ =>
            analyse
              ((fix run (u : t) (es : list event) {struct es} : t :=
                  match es with
                  | [] => u
                  | e' :: es' => run (step u e') es'
                  end) u pending)
        | _, _ => u
        end
      else u
  | click_save _ => u
  | click_save_contour _ => u
  end.

(** The window after a sequence of events. *)
Definition run `{Cv2} (u : t) (es : list event) : t := foldl step u es.

(** The sliders report values of their range only: [3, 190] for the
    threshold, [1, 50] for the line step. *)
Fixpoint in_range (e : event) : Prop :=
  match e with
  | move_thresh val => 3 <= val <= 190
  | move_line val => 1 <= val <= 50
  | click_result pending =>
      (fix all (es : list event) : Prop :=
         match es with
         | [] => True
         | e' :: es' => in_range e' /\ all es'
         end) pending
  | _ => True
  end.

(** What holds of the window at every moment (see [run_consistent]). *)
Definition consistent `{Cv2} (u : t) : Prop :=
  let s := self u in
  (crop_btn u = true -> is_Some (InjuryDetectionApp.injury_img s))
  /\ (InjuryDetectionApp.result_btn_enabled s = true ->
      is_Some (InjuryDetectionApp.injury_img s)
      /\ is_Some (InjuryDetectionApp.cropped_control s))
  /\ (save_btn u = save_contour_btn u)
  /\ (save_btn u = true ->
      exists control threshvalue linestep combined contours,
        3 <= threshvalue <= 190 /\ 1 <= linestep <= 50
        /\ findcontours (InjuryDetectionApp.injury_img s) (Some control)
                        threshvalue linestep = Ok (combined, contours)
        /\ InjuryDetectionApp.result_img s = Some combined
        /\ InjuryDetectionApp.contours s = Some contours)
  /\ (forall img, InjuryDetectionApp.injury_img s = Some img ->
        exists m, img = Color m)
  /\ (forall c, InjuryDetectionApp.cropped_control s = Some c ->
        exists m, c = Color m)
  /\ 3 <= InjuryDetectionApp.threshvalue s <= 190
  /\ 1 <= InjuryDetectionApp.linestep s <= 50.

End InjuryDetectionUi.

(** A short session: load a picture, select a control region, move the
    threshold slider, analyse (with a slider move still pending), select
    another region. *)
Definition session : list InjuryDetectionUi.event :=
  [ InjuryDetectionUi.click_upload "a.png" (Some (uniform 12 12 (BGR 9 9 9)));
    InjuryDetectionUi.click_crop true (Ok (Some (0, 0, 11, 11)));
    InjuryDetectionUi.move_thresh 3;
    InjuryDetectionUi.click_result [InjuryDetectionUi.move_line 1];
    InjuryDetectionUi.click_crop true (Ok (Some (1, 1, 4, 4))) ].

(** * Properties *)

Create HintDb shape discriminated.

(** Closes [uint8_image] and [rect] goals on literal arrays. *)
Ltac solve_literal :=
  first
    [ split; [reflexivity | repeat constructor]
    | unfold uint8_image, uint8_bgr, uint8; repeat constructor; simpl; lia ].

(** ** Scan-line subsampling *)

Lemma ceil_div_bounds (n k : Z) :
  0 < k -> k * (ceil_div n k - 1) < n <= k * ceil_div n k.
Proof.
  intros Hk. unfold ceil_div.
  pose proof (Z.div_mod (n + k - 1) k ltac:(lia)) as Hdm.
  pose proof (Z.mod_pos_bound (n + k - 1) k Hk) as Hm.
  lia.
Qed.

Lemma ceil_div_unique (n k c : Z) :
  0 < k -> k * (c - 1) < n <= k * c -> ceil_div n k = c.
Proof.
  intros Hk Hc. pose proof (ceil_div_bounds n k Hk) as Hb.
  nia.
Qed.

Lemma range_from_length (fuel i stop step : nat) :
  (1 <= step)%nat -> (stop - i <= fuel)%nat ->
  Z.of_nat (length (range_from fuel i stop step)) =
  ceil_div (Z.of_nat (stop - i)) (Z.of_nat step).
Proof.
  intros Hstep. revert i.
  induction fuel as [|fuel IH]; intros i Hfuel; simpl.
  - symmetry. apply ceil_div_unique; lia.
  - destruct (Nat.ltb_spec i stop) as [Hlt|Hge].
    + simpl. rewrite Nat2Z.inj_succ, IH by lia.
      symmetry. apply ceil_div_unique; [lia|].
      pose proof (ceil_div_bounds (Z.of_nat (stop - (i + step)))
                    (Z.of_nat step) ltac:(lia)) as Hb.
      set (c := ceil_div _ _) in *. clearbody c.
      replace (Z.succ c - 1) with c by lia.
      replace (Z.of_nat step * Z.succ c)
        with (Z.of_nat step * c + Z.of_nat step) by ring.
      replace (Z.of_nat step * (c - 1))
        with (Z.of_nat step * c - Z.of_nat step) in Hb by ring.
      destruct (Nat.le_gt_cases (i + step) stop) as [Hle|Hgt].
      * lia.
      * replace (stop - (i + step))%nat with 0%nat in Hb by lia.
        assert (c = 0) as ->; [|lia].
        destruct Hb as [Hb1 Hb2]. clear -Hb1 Hb2 Hstep.
        set (s := Z.of_nat step) in *. simpl in Hb2.
        destruct (Z.lt_trichotomy c 0) as [Hc|[Hc|Hc]]; [|done|].
        -- assert (s * c <= s * (-1)) by (apply Z.mul_le_mono_nonneg_l; lia).
           lia.
        -- assert (s * 1 <= s * c) by (apply Z.mul_le_mono_nonneg_l; lia).
           lia.
    + simpl. symmetry. apply ceil_div_unique; lia.
Qed.

Lemma range_from_bound (fuel i stop step : nat) :
  Forall (fun j => (j < stop)%nat) (range_from fuel i stop step).
Proof.
  revert i. induction fuel as [|fuel IH]; intros i; simpl; [constructor|].
  destruct (Nat.ltb_spec i stop); [|constructor].
  constructor; [done | apply IH].
Qed.

Lemma omap_length_total {A B} (f : A -> option B) (l : list A) :
  Forall (fun x => is_Some (f x)) l -> length (omap f l) = length l.
Proof.
  induction 1 as [|x l [y Hy] _ IH]; simpl; [done|].
  rewrite Hy. simpl. f_equal. exact IH.
Qed.

Lemma omap_length_filter {A B} (f : A -> option B) (P : A -> Prop)
    `{!forall x, Decision (P x)} (l : list A) :
  (forall x, is_Some (f x) <-> P x) ->
  length (omap f l) = length (filter P l).
Proof.
  intros Hf. induction l as [|x l IH]; simpl; [done|].
  rewrite filter_cons. destruct (decide (P x)) as [HP|HP].
  - apply Hf in HP as [y Hy]. rewrite Hy. simpl. f_equal. exact IH.
  - destruct (f x) as [y|] eqn:Hy; [|done].
    exfalso. apply HP, Hf. eauto.
Qed.

Lemma create_lines_length (L : list (list point)) (k : Z) :
  1 <= k ->
  Z.of_nat (length (create_lines L k)) = ceil_div (Z.of_nat (length L)) k.
Proof.
  intros Hk. unfold create_lines, py_range.
  rewrite omap_length_total.
  - rewrite range_from_length by lia.
    f_equal; lia.
  - eapply Forall_impl; [apply range_from_bound|].
    intros j Hj. simpl in *. destruct (Nat.ltb_spec j (length L)); [|lia].
    by apply lookup_lt_is_Some.
Qed.

Lemma range_from_lookup (fuel i stop step j : nat) :
  (1 <= step)%nat -> (stop - i <= fuel)%nat ->
  range_from fuel i stop step !! j =
  if (i + j * step <? stop)%nat then Some (i + j * step)%nat else None.
Proof.
  intros Hstep. revert i j.
  induction fuel as [|fuel IH]; intros i j Hfuel; simpl.
  - destruct (Nat.ltb_spec (i + j * step) stop); [lia|done].
  - destruct (Nat.ltb_spec i stop) as [Hlt|Hge].
    + destruct j as [|j]; simpl.
      * rewrite Nat.add_0_r. by destruct (Nat.ltb_spec i stop); [|lia].
      * rewrite IH by lia.
        replace (i + step + j * step)%nat with (i + (step + j * step))%nat
          by lia.
        done.
    + destruct (Nat.ltb_spec (i + j * step) stop); [lia|done].
Qed.

Lemma omap_lookup_total {A B} (f : A -> option B) (l : list A) (j : nat) :
  Forall (fun x => is_Some (f x)) l -> omap f l !! j = l !! j ≫= f.
Proof.
  intros Hl. revert j.
  induction Hl as [|x l [y Hy] _ IH]; intros j; [done|].
  cbn [omap list_omap]. rewrite Hy. fold (@omap list _ _ _ f l).
  destruct j as [|j]; simpl; [done|]. apply IH.
Qed.

Lemma create_lines_lookup (L : list (list point)) (k : Z) (j : nat) :
  1 <= k -> create_lines L k !! j = L !! (j * Z.to_nat k)%nat.
Proof.
  intros Hk. unfold create_lines, py_range.
  replace (Z.to_nat (Z.max 1 k)) with (Z.to_nat k) by lia.
  rewrite omap_lookup_total.
  - rewrite range_from_lookup by lia. simpl.
    destruct (Nat.ltb_spec (j * Z.to_nat k) (length L)) as [Hlt|Hge]; simpl.
    + by destruct (Nat.ltb_spec (j * Z.to_nat k) (length L)); [|lia].
    + symmetry. by apply lookup_ge_None.
  - eapply Forall_impl; [apply range_from_bound|].
    intros i Hi. simpl in *. destruct (Nat.ltb_spec i (length L)); [|lia].
    by apply lookup_lt_is_Some.
Qed.

Lemma line_coordinates_length (g : matrix Z) :
  length (line_coordinates g) = length (nonempty_columns g).
Proof.
  unfold line_coordinates, nonempty_columns.
  apply omap_length_filter. intros x. simpl.
  destruct (Nat.eqb_spec (countNonZero (column g x)) 0) as [->|Hne].
  - split; [intros [? ?]; done | done].
  - split; [done | eauto].
Qed.

(** C1: for a fixed subject, control and threshold, the number of scan lines
    that [findcontours] draws into the third panel with line step [k],
    [1 <= k <= 50], is the ceiling of (number of non-empty columns of the
    masked luminance) / [k]; with [k = 1] it is one line per non-empty
    column.  The lines drawn are [l_lines]: line [j] is candidate line
    [j * k], in column order.  The columns counted do not depend on [k]. *)
Theorem scan_line_count `{Cv2} (original : matrix bgr) (image2 : image)
    (threshvalue k : Z) :
  1 <= k <= 50 ->
  let run := findcontours_body original image2 threshvalue k in
  let n := Z.of_nat (length (nonempty_columns (l_result_gray run))) in
  let drawn := Z.of_nat (length (l_lines run)) in
  drawn = ceil_div n k
  /\ k * (drawn - 1) < n <= k * drawn
  /\ (k = 1 -> drawn = n)
  /\ (forall j : nat,
        l_lines run !! j = l_line_coordinates run !! (j * Z.to_nat k)%nat)
  /\ l_result_gray run =
     l_result_gray (findcontours_body original image2 threshvalue 1)
  /\ l_lined run =
     match l_lines run with
     | [] => l_contoured run
     | _ :: _ => polylines (l_contoured run) (l_lines run) white 2
     end.
Proof.
  intros Hk run n drawn.
  assert (drawn = ceil_div n k) as Hdrawn.
  { subst drawn n run. cbn [l_lines l_result_gray findcontours_body].
    rewrite create_lines_length by lia.
    by rewrite line_coordinates_length. }
  split; [exact Hdrawn|].
  split; [rewrite Hdrawn; apply ceil_div_bounds; lia|].
  split; [intros ->; rewrite Hdrawn; apply ceil_div_unique; lia|].
  split; [|split; reflexivity].
  intros j. subst run. cbn [l_lines l_line_coordinates findcontours_body].
  apply create_lines_lookup. lia.
Qed.

(** Three non-empty columns sampled with line step 2 give two lines. *)
Lemma scan_line_count_witness :
  1 <= 2 <= 50 /\
  Z.of_nat (length (l_lines (findcontours_body (cv := small_cv2)
     [[BGR 9 9 9; BGR 9 9 9; BGR 9 9 9]]
     (Color [[BGR 90 90 90; BGR 90 90 90; BGR 90 90 90]]) 50 2))) = 2.
Proof.
  split; [lia|].
  pose proof (scan_line_count (H := small_cv2)
     [[BGR 9 9 9; BGR 9 9 9; BGR 9 9 9]]
     (Color [[BGR 90 90 90; BGR 90 90 90; BGR 90 90 90]]) 50 2
     ltac:(lia)) as [Hd _].
  exact Hd.
Defined.

(** ** Segmentation *)

Lemma row_foreground_threshold_mono (row : list Z) (t1 t2 : Z) :
  t1 <= t2 ->
  (row_foreground (map (fun p => if t2 <? p then 255 else 0)%Z row) <=
   row_foreground (map (fun p => if t1 <? p then 255 else 0)%Z row))%nat.
Proof.
  intros Ht. unfold row_foreground.
  induction row as [|p row IH]; simpl; [done|].
  rewrite !filter_cons.
  destruct (Z.ltb_spec t2 p), (Z.ltb_spec t1 p);
    repeat case_decide; simpl; lia.
Qed.

Lemma foreground_count_threshold_mono (src : matrix Z) (t1 t2 : Z) :
  t1 <= t2 ->
  (foreground_count (threshold src t2 255) <=
   foreground_count (threshold src t1 255))%nat.
Proof.
  intros Ht. unfold foreground_count, threshold.
  induction src as [|row src IH]; simpl; [done|].
  pose proof (row_foreground_threshold_mono row t1 t2 Ht). lia.
Qed.

(** C2: for a fixed pair of images, and thresholds [t1 <= t2] in [3,190],
    the segmentation mask at [t2] has at most as many foreground (255)
    pixels as the mask at [t1]. *)
Theorem threshold_monotone `{Cv2} (original : matrix bgr) (image2 : image)
    (t1 t2 linestep : Z) :
  3 <= t1 -> t1 <= t2 -> t2 <= 190 ->
  (foreground_count
     (l_thresh (findcontours_body original image2 t2 linestep)) <=
   foreground_count
     (l_thresh (findcontours_body original image2 t1 linestep)))%nat.
Proof.
  intros _ Ht _. cbn [l_thresh findcontours_body].
  by apply foreground_count_threshold_mono.
Qed.

(** Thresholds 30 and 120 on a two-pixel pair: two foreground pixels, then
    one. *)
Lemma threshold_monotone_witness :
  (3 <= 30 /\ 30 <= 120 /\ 120 <= 190) /\
  (foreground_count
     (l_thresh (findcontours_body (cv := small_cv2)
        [[BGR 0 0 0; BGR 100 100 100]]
        (Color [[BGR 50 50 50; BGR 250 250 250]]) 120 10)) <=
   foreground_count
     (l_thresh (findcontours_body (cv := small_cv2)
        [[BGR 0 0 0; BGR 100 100 100]]
        (Color [[BGR 50 50 50; BGR 250 250 250]]) 30 10)))%nat.
Proof.
  split; [lia|].
  apply (threshold_monotone (H := small_cv2)); lia.
Defined.

(** ** Identical images *)

Lemma absdiff_self (g : matrix Z) : all_zero (absdiff g g).
Proof.
  unfold all_zero, absdiff.
  induction g as [|row g IH]; simpl; constructor; [|exact IH].
  clear IH. induction row as [|p row IH]; simpl; constructor; [lia|exact IH].
Qed.

Lemma threshold_zero (m : matrix Z) (t maxval : Z) :
  0 <= t -> all_zero m -> all_zero (threshold m t maxval).
Proof.
  intros Ht Hm. unfold all_zero, threshold in *.
  induction Hm as [|row m Hrow _ IH]; simpl; constructor; [|exact IH].
  clear IH. induction Hrow as [|p row -> _ IH]; simpl; constructor; [|exact IH].
  by destruct (Z.ltb_spec t 0); [lia|].
Qed.

Lemma cv2_resize_same `{cv : Cv2} {laws : Cv2Laws cv} (i : image) :
  is_empty i = false ->
  cv2_resize i (img_width i) (img_height i) = Ok i.
Proof.
  intros Hne. unfold cv2_resize. rewrite Hne.
  unfold is_empty in Hne. apply orb_false_elim in Hne as [Hh Hw].
  rewrite Hh, Hw. simpl. by rewrite resample_same_size.
Qed.

Lemma identical_images_segmentation `{cv : Cv2} {laws : Cv2Laws cv}
    (i : image) (threshvalue : Z) :
  0 <= threshvalue ->
  all_zero (difference_map i i)
  /\ all_zero (segmentation_mask i i threshvalue)
  /\ external_contours i i threshvalue = [].
Proof.
  intros Ht.
  assert (all_zero (difference_map i i)) as Hd by apply absdiff_self.
  assert (all_zero (segmentation_mask i i threshvalue)) as Hs.
  { unfold segmentation_mask, smoothed_map.
    rewrite GaussianBlur_zero by exact Hd. by apply threshold_zero. }
  split; [exact Hd|]. split; [exact Hs|].
  by apply findContours_zero.
Qed.

(** The small instance satisfies the laws. *)
Lemma small_cv2_laws : Cv2Laws small_cv2.
Proof.
  split.
  - intros i. cbn. unfold small_resample. by rewrite !Nat.eqb_refl.
  - reflexivity.
  - intros m Hm. cbn. generalize 0.
    induction Hm as [|row m Hrow _ IH]; intros y; simpl; [done|].
    rewrite IH, app_nil_r. clear IH. generalize 0.
    induction Hrow as [|p row -> _ IH]; intros x; simpl; [done|].
    apply IH.
Qed.

(** C3: with one (colour, non-empty) image as subject and as control, and
    the OpenCV laws [Cv2Laws], [findcontours] resamples the control to the
    subject's size, which gives the same image back; the absolute
    difference map is all zeros; and the contour set it returns is empty,
    for every threshold in [3,190]. *)
Theorem identical_images_no_contours `{cv : Cv2} {laws : Cv2Laws cv}
    (img : matrix bgr) (threshvalue linestep : Z) :
  is_empty (Color img) = false ->
  3 <= threshvalue <= 190 ->
  exists l,
    findcontours_run (Some (Color img)) (Some (Color img))
                     threshvalue linestep = Ok l
    /\ l_image2 l = Color img
    /\ all_zero (l_difference l)
    /\ l_contours l = []
    /\ findcontours (Some (Color img)) (Some (Color img))
                    threshvalue linestep = Ok (Color (l_combined l), []).
Proof.
  intros Hne Ht.
  destruct (identical_images_segmentation (Color img) threshvalue ltac:(lia))
    as (Hd & _ & Hc).
  eexists. unfold findcontours, findcontours_run.
  rewrite cv2_resize_same by exact Hne. cbn.
  split; [reflexivity|]. split; [reflexivity|]. split; [exact Hd|].
  split; [exact Hc|].
  change (external_contours (Color img) (Color img) threshvalue)
    with (l_contours (findcontours_body img (Color img) threshvalue linestep))
    in Hc.
  unfold mret, result_ret. do 2 f_equal. exact Hc.
Qed.

(** A two-pixel image against itself, on the small instance. *)
Lemma identical_images_no_contours_witness :
  exists l,
    findcontours_run (cv := small_cv2)
      (Some (Color [[BGR 10 20 30; BGR 40 50 60]]))
      (Some (Color [[BGR 10 20 30; BGR 40 50 60]])) 50 10 = Ok l
    /\ l_contours l = [].
Proof.
  destruct (identical_images_no_contours (cv := small_cv2)
              (laws := small_cv2_laws)
              [[BGR 10 20 30; BGR 40 50 60]] 50 10
              ltac:(reflexivity) ltac:(lia)) as (l & Hrun & _ & _ & Hc & _).
  exists l. split; [exact Hrun | exact Hc].
Defined.

(** ** The composite image *)

Section Rect.
Context {A : Type}.
Implicit Types (m a b c : matrix A) (h w x y : nat).

Lemma rect_row h w m y row : rect h w m -> m !! y = Some row -> length row = w.
Proof.
  intros [_ Hrows] Hy. rewrite Forall_lookup in Hrows. by eapply Hrows.
Qed.

Lemma rect_width h w m : rect h w m -> (0 < h)%nat -> width m = w.
Proof.
  intros [Hh Hrows] Hpos. destruct m as [|row m]; simpl in *; [lia|].
  by inversion Hrows.
Qed.

Lemma pixel_paint (cover : nat -> nat -> bool) (color : A) m x y :
  pixel (paint cover color m) x y =
  (fun p => if cover x y then color else p) <$> pixel m x y.
Proof.
  unfold pixel, paint. rewrite list_lookup_imap.
  destruct (m !! y) as [row|]; [|done].
  cbn [fmap option_fmap option_map mbind option_bind].
  by rewrite list_lookup_imap.
Qed.

Lemma paint_rect (cover : nat -> nat -> bool) (color : A) h w m :
  rect h w m -> rect h w (paint cover color m).
Proof.
  intros [Hh Hrows]. split; unfold paint.
  - by rewrite length_imap.
  - rewrite Forall_lookup. intros y row' Hrow'.
    rewrite list_lookup_imap_Some in Hrow'. destruct Hrow' as (row & Hrow & ->).
    rewrite length_imap. rewrite Forall_lookup in Hrows. by eapply Hrows.
Qed.

Lemma hstack3_row a b c y :
  hstack3 a b c !! y =
  ra ← a !! y; rb ← b !! y; rc ← c !! y; Some (ra ++ rb ++ rc).
Proof.
  unfold hstack3. rewrite !lookup_zip_with.
  destruct (a !! y), (b !! y), (c !! y); done.
Qed.

Lemma hstack3_rect h w a b c :
  rect h w a -> rect h w b -> rect h w c ->
  rect h (3 * w) (hstack3 a b c).
Proof.
  intros Ha Hb Hc. split.
  - unfold hstack3. rewrite !length_zip_with.
    destruct Ha as [-> _], Hb as [-> _], Hc as [-> _]. lia.
  - rewrite Forall_lookup. intros y row Hrow.
    rewrite hstack3_row in Hrow.
    destruct (a !! y) as [ra|] eqn:Hra; [|done].
    destruct (b !! y) as [rb|] eqn:Hrb; [|done].
    destruct (c !! y) as [rc|] eqn:Hrc; [|done].
    simpl in Hrow. injection Hrow as <-.
    rewrite !length_app.
    rewrite (rect_row _ _ _ _ _ Ha Hra), (rect_row _ _ _ _ _ Hb Hrb),
      (rect_row _ _ _ _ _ Hc Hrc). lia.
Qed.

Lemma hstack3_pixel h w a b c x y :
  rect h w a -> rect h w b -> rect h w c -> (x < w)%nat ->
  pixel (hstack3 a b c) x y = pixel a x y
  /\ pixel (hstack3 a b c) (w + x) y = pixel b x y
  /\ pixel (hstack3 a b c) (2 * w + x) y = pixel c x y.
Proof.
  intros Ha Hb Hc Hx. unfold pixel. rewrite hstack3_row.
  destruct (a !! y) as [ra|] eqn:Hra.
  2:{ apply lookup_ge_None in Hra.
      rewrite (lookup_ge_None_2 b), (lookup_ge_None_2 c); [done|..].
      - destruct Ha as [Ha _], Hc as [Hc _]. lia.
      - destruct Ha as [Ha _], Hb as [Hb _]. lia. }
  assert (is_Some (b !! y)) as [rb Hrb].
  { apply lookup_lt_is_Some. apply lookup_lt_Some in Hra.
    destruct Ha as [Ha _], Hb as [Hb _]. lia. }
  assert (is_Some (c !! y)) as [rc Hrc].
  { apply lookup_lt_is_Some. apply lookup_lt_Some in Hra.
    destruct Ha as [Ha _], Hc as [Hc _]. lia. }
  rewrite Hrb, Hrc. simpl.
  pose proof (rect_row _ _ _ _ _ Ha Hra) as La.
  pose proof (rect_row _ _ _ _ _ Hb Hrb) as Lb.
  pose proof (rect_row _ _ _ _ _ Hc Hrc) as Lc.
  split; [|split].
  - rewrite lookup_app_l by lia. done.
  - rewrite lookup_app_r by lia. rewrite lookup_app_l by lia.
    f_equal. lia.
  - rewrite lookup_app_r by lia. rewrite lookup_app_r by lia.
    f_equal. lia.
Qed.
End Rect.

Lemma drawContours_rect `{Cv2} h w (img : matrix bgr) cs color t :
  rect h w img -> rect h w (drawContours img cs color t).
Proof.
  intros Hr. unfold drawContours. destruct cs; [done|]. by apply paint_rect.
Qed.

Lemma drawContours_pixel `{Cv2} (img : matrix bgr) cs color t x y p :
  pixel (drawContours img cs color t) x y = Some p ->
  p = color \/ pixel img x y = Some p.
Proof.
  unfold drawContours. destruct cs as [|c cs]; [by right|].
  rewrite pixel_paint. destruct (pixel img x y) as [q|]; simpl; [|done].
  intros [= <-]. destruct (contour_cover _ _ _ _); [by left|by right].
Qed.

Lemma polylines_pixel `{Cv2} (img : matrix bgr) ls color t x y p :
  pixel (polylines img ls color t) x y = Some p ->
  p = color \/ pixel img x y = Some p.
Proof.
  unfold polylines. rewrite pixel_paint.
  destruct (pixel img x y) as [q|]; simpl; [|done].
  intros [= <-]. destruct (polyline_cover _ _ _ _); [by left|by right].
Qed.

Lemma cv2_resize_ok `{Cv2} (src : image) (w h : nat) :
  is_empty src = false -> (0 < w)%nat -> (0 < h)%nat ->
  cv2_resize src w h = Ok (resample src w h).
Proof.
  intros Hsrc Hw Hh. unfold cv2_resize. rewrite Hsrc.
  destruct w, h; simpl; done || lia.
Qed.

Lemma outline_pixel `{Cv2} (img : matrix bgr) (contours : list contour) x y :
  pixel (drawContours img contours black 5) x y =
  (fun p => if outline_covers contours x y then black else p)
    <$> pixel img x y.
Proof.
  unfold drawContours, outline_covers. destruct contours as [|c cs].
  - by destruct (pixel img x y).
  - apply pixel_paint.
Qed.

Lemma scan_line_pixel `{Cv2} (img : matrix bgr) (lines : list (list point))
    x y :
  pixel match lines with
        | [] => img
        | _ :: _ => polylines img lines white 2
        end x y =
  (fun p => if scan_line_covers lines x y then white else p)
    <$> pixel img x y.
Proof.
  unfold polylines, scan_line_covers. destruct lines as [|ln lns].
  - by destruct (pixel img x y).
  - apply pixel_paint.
Qed.

(** C4: for a non-empty colour subject of [h] rows and [w] columns and a
    non-empty control, [findcontours] returns, and the image it returns is
    the horizontal concatenation of three [h]-by-[w] panels, [3 * w] columns
    in all: the subject as it is; [contoured], the subject with the
    outlines of the external contours drawn in black: a pixel is black
    where an outline (thickness 5) of the returned contours covers it and
    the subject's elsewhere; [lined], which is [contoured] with the scan
    lines [l_lines] drawn in white: a pixel is white where a scan line
    (thickness 2) covers it and [contoured]'s elsewhere. *)
Theorem composite_three_panels `{cv : Cv2} (original : matrix bgr)
    (control : image) (h w : nat) (threshvalue linestep : Z) :
  rect h w original -> (0 < h)%nat -> (0 < w)%nat ->
  is_empty control = false ->
  exists l,
    findcontours_run (Some (Color original)) (Some control)
                     threshvalue linestep = Ok l
    /\ findcontours (Some (Color original)) (Some control)
                    threshvalue linestep
       = Ok (Color (l_combined l), l_contours l)
    /\ l_combined l = hstack3 original (l_contoured l) (l_lined l)
    /\ rect h w (l_contoured l) /\ rect h w (l_lined l)
    /\ rect h (3 * w) (l_combined l)
    /\ (forall x y, (x < w)%nat ->
          pixel (l_combined l) x y = pixel original x y
          /\ pixel (l_combined l) (w + x) y = pixel (l_contoured l) x y
          /\ pixel (l_combined l) (2 * w + x) y = pixel (l_lined l) x y)
    /\ l_contoured l = drawContours original (l_contours l) black 5
    /\ (forall x y p, pixel (l_contoured l) x y = Some p ->
          p = black \/ pixel original x y = Some p)
    /\ l_lined l = match l_lines l with
                   | [] => l_contoured l
                   | _ :: _ => polylines (l_contoured l) (l_lines l) white 2
                   end
    /\ (forall x y p, pixel (l_lined l) x y = Some p ->
          p = white \/ pixel (l_contoured l) x y = Some p)
    /\ l_contours l = findContours (l_thresh l)
    /\ (forall x y,
          pixel (l_contoured l) x y =
          (fun p => if outline_covers (l_contours l) x y then black else p)
            <$> pixel original x y)
    /\ (forall x y,
          pixel (l_lined l) x y =
          (fun p => if scan_line_covers (l_lines l) x y then white else p)
            <$> pixel (l_contoured l) x y).
Proof.
  intros Hrect Hh Hw Hctl.
  set (image2 := resample control w h).
  exists (findcontours_body original image2 threshvalue linestep).
  assert (findcontours_run (Some (Color original)) (Some control)
            threshvalue linestep
          = Ok (findcontours_body original image2 threshvalue linestep))
    as Hrun.
  { unfold findcontours_run. cbn [img_width img_height].
    rewrite (rect_width h w) by done. destruct Hrect as [Hlen _].
    unfold height. rewrite Hlen.
    rewrite cv2_resize_ok by done. reflexivity. }
  set (l := findcontours_body original image2 threshvalue linestep) in *.
  assert (rect h w (l_contoured l)) as Hc by by apply drawContours_rect.
  assert (rect h w (l_lined l)) as Hl.
  { subst l. cbn [l_lined findcontours_body].
    destruct (create_lines _ _); [exact Hc|]. by apply paint_rect. }
  split; [exact Hrun|].
  split; [unfold findcontours; by rewrite Hrun|].
  split; [reflexivity|].
  split; [exact Hc|]. split; [exact Hl|].
  split; [by apply hstack3_rect|].
  split; [intros x y Hx; by apply (hstack3_pixel h w)|].
  split; [reflexivity|].
  split; [intros x y p; apply drawContours_pixel|].
  split; [reflexivity|].
  split.
  { intros x y p. subst l.
    cbn [l_lined l_contoured l_lines findcontours_body].
    destruct (create_lines _ _) as [|ln lns]; [by right|].
    apply polylines_pixel. }
  split; [reflexivity|].
  split; [intros x y; apply outline_pixel|].
  intros x y. apply (scan_line_pixel (l_contoured l) (l_lines l)).
Qed.

(** A one-row subject of two pixels against a one-pixel control. *)
Lemma composite_three_panels_witness :
  exists l,
    findcontours (cv := small_cv2)
      (Some (Color [[BGR 0 0 0; BGR 200 200 200]]))
      (Some (Color [[BGR 255 255 255]])) 50 1
    = Ok (Color (l_combined l), l_contours l)
    /\ rect 1 (3 * 2) (l_combined l).
Proof.
  destruct (composite_three_panels (cv := small_cv2)
              [[BGR 0 0 0; BGR 200 200 200]] (Color [[BGR 255 255 255]])
              1 2 50 1)
    as (l & _ & Hret & _ & _ & _ & Hshape & _).
  - solve_literal.
  - lia.
  - lia.
  - reflexivity.
  - exists l. split; [exact Hret | exact Hshape].
Defined.

(** ** Candidate scan lines *)

Lemma filter_ext_elem {A} (P Q : A -> Prop) `{!forall x, Decision (P x)}
    `{!forall x, Decision (Q x)} (l : list A) :
  (forall x, x ∈ l -> P x <-> Q x) -> filter P l = filter Q l.
Proof.
  induction l as [|x l IH]; intros Hext; [done|].
  rewrite !filter_cons.
  assert (P x <-> Q x) as Hx by (apply Hext; left).
  rewrite IH by (intros z Hz; apply Hext; by right).
  destruct (decide (P x)), (decide (Q x)); tauto || done.
Qed.

Lemma where_pos_from (v : list Z) (s : nat) :
  omap (fun '(y, p) => if 0 <? p then Some y else None)
       (zip (seq s (length v)) v)
  = filter (fun y => positive_at v (y - s)) (seq s (length v)).
Proof.
  revert s. induction v as [|p v IH]; intros s; [done|].
  cbn [length seq zip zip_with omap list_omap]. rewrite filter_cons.
  change (zip_with pair (seq (S s) (length v)) v)
    with (zip (seq (S s) (length v)) v).
  fold (@omap list _ _ _ (fun '(y, p) => if 0 <? p then Some y else None)
          (zip (seq (S s) (length v)) v)).
  rewrite IH.
  rewrite (filter_ext_elem (fun y => positive_at (p :: v) (y - s))
             (fun y => positive_at v (y - S s)) (seq (S s) (length v))).
  2:{ intros y Hy. apply elem_of_seq in Hy.
      replace (y - s)%nat with (S (y - S s)) by lia. done. }
  destruct (Z.ltb_spec 0 p) as [Hp|Hp].
  - rewrite decide_True; [done|]. exists p. rewrite Nat.sub_diag. done.
  - rewrite decide_False; [done|]. intros (q & Hq & ?).
    rewrite Nat.sub_diag in Hq. injection Hq as <-. lia.
Qed.

Lemma where_pos_filter (v : list Z) :
  where_pos v = filter (positive_at v) (seq 0 (length v)).
Proof.
  unfold where_pos. rewrite where_pos_from.
  apply filter_ext_elem. intros y _. by rewrite Nat.sub_0_r.
Qed.

Lemma countNonZero_where_pos_from (v : list Z) (s : nat) :
  Forall (fun p => 0 <= p) v ->
  length (filter (fun p => p <> 0) v) = 0%nat <->
  omap (fun '(y, p) => if 0 <? p then Some y else None)
       (zip (seq s (length v)) v) = [].
Proof.
  revert s. induction v as [|p v IH]; intros s Hv; [by split|].
  apply Forall_cons in Hv as [Hp Hv].
  cbn [length seq zip zip_with omap list_omap]. rewrite filter_cons.
  specialize (IH (S s) Hv).
  destruct (decide (p <> 0)) as [Hnz|Hz], (Z.ltb_spec 0 p) as [Hpos|Hnpos];
    try lia.
  - split; intros [=].
  - exact IH.
Qed.

Lemma countNonZero_where_pos (v : list Z) :
  Forall (fun p => 0 <= p) v ->
  countNonZero v = 0%nat <-> where_pos v = [].
Proof. apply countNonZero_where_pos_from. Qed.

Lemma land_255 (p : Z) : uint8 p -> Z.land p 255 = p.
Proof.
  intros Hp. change 255 with (Z.ones 8).
  rewrite Z.land_ones by lia. apply Z.mod_small. exact Hp.
Qed.

Lemma and_bgr_white (p : bgr) : uint8_bgr p -> and_bgr p white = p.
Proof.
  intros (Hb & Hg & Hr). destruct p as [b g r]. unfold and_bgr, white.
  simpl in *. by rewrite !land_255.
Qed.

Lemma and_bgr_black (p : bgr) : and_bgr p black = black.
Proof. unfold and_bgr, black. simpl. by rewrite !Z.land_0_r. Qed.

Lemma gray_of_bgr_nonneg (p : bgr) : uint8_bgr p -> 0 <= gray_of_bgr p.
Proof.
  intros (Hb & Hg & Hr). unfold gray_of_bgr, uint8 in *.
  apply Z.shiftr_nonneg. lia.
Qed.

Lemma pixel_Forall {A} (P : A -> Prop) (m : matrix A) x y p :
  Forall (Forall P) m -> pixel m x y = Some p -> P p.
Proof.
  intros Hm. unfold pixel. destruct (m !! y) as [row|] eqn:Hrow; [|done].
  simpl. intros Hp. rewrite Forall_lookup in Hm.
  specialize (Hm _ _ Hrow). rewrite Forall_lookup in Hm. by eapply Hm.
Qed.

Lemma pixel_apply_mask (o m : matrix bgr) x y :
  pixel (apply_mask o m) x y =
  p ← pixel o x y; q ← pixel m x y; Some (gray_of_bgr (and_bgr p q)).
Proof.
  unfold pixel, apply_mask, cvtColor_BGR2GRAY, bitwise_and.
  rewrite list_lookup_fmap, lookup_zip_with.
  destruct (o !! y) as [ro|]; [|done].
  destruct (m !! y) as [rm|]; simpl.
  - rewrite list_lookup_fmap, lookup_zip_with.
    destruct (ro !! x); [|done]. by destruct (rm !! x).
  - by destruct (ro !! x).
Qed.

Lemma column_lookup (g : matrix Z) x y :
  column g x !! y = (fun row => default 0 (row !! x)) <$> g !! y.
Proof. unfold column. apply list_lookup_fmap. Qed.

Lemma masked_luminance (o m : matrix bgr) x y v :
  uint8_image o -> binary_mask m ->
  pixel (apply_mask o m) x y = Some v ->
  0 <= v /\ (0 < v <-> lit o m x y = true).
Proof.
  intros Ho Hm. rewrite pixel_apply_mask. unfold lit.
  destruct (pixel o x y) as [p|] eqn:Hp; [|done].
  destruct (pixel m x y) as [q|] eqn:Hq; [|done].
  simpl. intros [= <-].
  pose proof (pixel_Forall _ _ _ _ _ Ho Hp) as Hu.
  destruct (pixel_Forall _ _ _ _ _ Hm Hq) as [->| ->].
  - rewrite and_bgr_black. split; [done|]. split; [done|].
    rewrite bool_decide_eq_false_2; done.
  - rewrite and_bgr_white by done. split; [by apply gray_of_bgr_nonneg|].
    rewrite bool_decide_eq_true_2 by done. simpl.
    by rewrite Z.ltb_lt.
Qed.

Lemma positive_at_column (o m : matrix bgr) x y :
  uint8_image o -> binary_mask m ->
  positive_at (column (apply_mask o m) x) y <-> lit o m x y = true.
Proof.
  intros Ho Hm. unfold positive_at. rewrite column_lookup.
  destruct (apply_mask o m !! y) as [row|] eqn:Hrow; simpl.
  - destruct (row !! x) as [v|] eqn:Hv; simpl.
    + assert (pixel (apply_mask o m) x y = Some v) as Hpix.
      { unfold pixel. rewrite Hrow. exact Hv. }
      destruct (masked_luminance _ _ _ _ _ Ho Hm Hpix) as [_ <-].
      split; [intros (p & [= <-] & ?); done | eauto].
    + assert (pixel (apply_mask o m) x y = None) as Hpix.
      { unfold pixel. rewrite Hrow. exact Hv. }
      rewrite pixel_apply_mask in Hpix. unfold lit.
      split; [intros (p & [= <-] & ?); lia|].
      destruct (pixel m x y), (pixel o x y); done.
  - assert (pixel (apply_mask o m) x y = None) as Hpix.
    { unfold pixel. by rewrite Hrow. }
    rewrite pixel_apply_mask in Hpix. unfold lit.
    split; [intros (p & [=] & _)|].
    destruct (pixel m x y), (pixel o x y); done.
Qed.

Lemma column_nonneg (o m : matrix bgr) x :
  uint8_image o -> binary_mask m ->
  Forall (fun p => 0 <= p) (column (apply_mask o m) x).
Proof.
  intros Ho Hm. rewrite Forall_lookup. intros y v.
  rewrite column_lookup.
  destruct (apply_mask o m !! y) as [row|] eqn:Hrow; [|done]. simpl.
  intros [= <-]. destruct (row !! x) as [v|] eqn:Hv; simpl; [|done].
  assert (pixel (apply_mask o m) x y = Some v) as Hpix.
  { unfold pixel. rewrite Hrow. exact Hv. }
  by destruct (masked_luminance _ _ _ _ _ Ho Hm Hpix).
Qed.

Lemma omap_map_filter {A B} (F : A -> option B) (G : A -> B) (P : A -> Prop)
    `{!forall x, Decision (P x)} (l : list A) :
  (forall x, x ∈ l -> F x = if decide (P x) then Some (G x) else None) ->
  omap F l = map G (filter P l).
Proof.
  induction l as [|x l IH]; intros HF; [done|].
  cbn [omap list_omap]. rewrite filter_cons.
  rewrite (HF x) by left.
  fold (@omap list _ _ _ F l). rewrite IH by (intros z Hz; apply HF; by right).
  by destruct (decide (P x)).
Qed.

Lemma apply_mask_rect h w (o m : matrix bgr) :
  rect h w o -> rect h w m -> rect h w (apply_mask o m).
Proof.
  intros [Ho Hro] [Hm Hrm]. unfold apply_mask, cvtColor_BGR2GRAY, bitwise_and.
  split.
  - rewrite length_fmap, length_zip_with. lia.
  - rewrite Forall_lookup. intros y row.
    rewrite list_lookup_fmap, lookup_zip_with.
    destruct (o !! y) as [ro|] eqn:Hy1; [|done].
    destruct (m !! y) as [rm|] eqn:Hy2; [|done].
    simpl. intros [= <-]. rewrite length_fmap, length_zip_with.
    rewrite Forall_lookup in Hro, Hrm.
    rewrite (Hro _ _ Hy1), (Hrm _ _ Hy2). lia.
Qed.

Lemma where_pos_lit_rows h w (o m : matrix bgr) x :
  rect h w o -> rect h w m -> uint8_image o -> binary_mask m ->
  where_pos (column (apply_mask o m) x) = lit_rows o m x.
Proof.
  intros Hro Hrm Ho Hm. rewrite where_pos_filter. unfold lit_rows.
  assert (length (column (apply_mask o m) x) = height o) as ->.
  { unfold column. rewrite length_fmap.
    destruct (apply_mask_rect h w o m Hro Hrm) as [-> _].
    destruct Hro as [Hlen _]. by rewrite <- Hlen. }
  apply filter_ext_elem. intros y _. by apply positive_at_column.
Qed.

Lemma line_coordinates_lit h w (o m : matrix bgr) :
  rect h w o -> rect h w m -> uint8_image o -> binary_mask m ->
  line_coordinates (apply_mask o m) =
  map (fun x => map (fun y => (Z.of_nat x, Z.of_nat y)) (lit_rows o m x))
      (lit_columns o m).
Proof.
  intros Hro Hrm Ho Hm. unfold line_coordinates, lit_columns.
  assert (width (apply_mask o m) = width o) as ->.
  { destruct h as [|h].
    - destruct Hro as [Hlen _]. by destruct o.
    - rewrite (rect_width (S h) w (apply_mask o m)),
        (rect_width (S h) w o); try done; try lia.
      by apply apply_mask_rect. }
  apply omap_map_filter. intros x _. cbn zeta.
  rewrite (where_pos_lit_rows h w) by done.
  pose proof (countNonZero_where_pos _ (column_nonneg o m x Ho Hm)) as Hc.
  rewrite (where_pos_lit_rows h w) in Hc by done.
  destruct (Nat.eqb_spec (countNonZero (column (apply_mask o m) x)) 0)
    as [Hz|Hnz].
  - rewrite decide_False; [done|]. intros Hne. by apply Hne, Hc.
  - rewrite decide_True; [done|]. intros Hnil. by apply Hnz, Hc.
Qed.

Lemma zeros_like_binary (o : matrix bgr) : binary_mask (zeros_like o).
Proof.
  unfold binary_mask, zeros_like.
  apply Forall_fmap, Forall_true. intros row.
  apply Forall_fmap, Forall_true. intros p. by left.
Qed.

Lemma zeros_like_rect h w (o : matrix bgr) :
  rect h w o -> rect h w (zeros_like o).
Proof.
  intros [Hlen Hrows]. unfold zeros_like. split.
  - by rewrite length_fmap.
  - apply Forall_fmap. eapply Forall_impl; [exact Hrows|].
    intros row Hrow. simpl. by rewrite length_fmap.
Qed.

#[local] Hint Resolve paint_rect drawContours_rect zeros_like_rect
  apply_mask_rect hstack3_rect : shape.

Lemma paint_white_binary (cover : nat -> nat -> bool) (m : matrix bgr) :
  binary_mask m -> binary_mask (paint cover white m).
Proof.
  unfold binary_mask, paint. intros Hm.
  rewrite Forall_lookup. intros y row Hrow.
  apply list_lookup_imap_Some in Hrow as (row0 & Hrow0 & ->).
  rewrite Forall_lookup in Hm. specialize (Hm _ _ Hrow0).
  rewrite Forall_lookup. intros x p Hp.
  apply list_lookup_imap_Some in Hp as (p0 & Hp0 & ->).
  destruct (cover x y); [by right|].
  rewrite Forall_lookup in Hm. by eapply Hm.
Qed.

Lemma fill_mask_binary `{Cv2} (o : matrix bgr) (cs : list contour) :
  binary_mask (drawContours (zeros_like o) cs white FILLED).
Proof.
  unfold drawContours. destruct cs; [apply zeros_like_binary|].
  apply paint_white_binary, zeros_like_binary.
Qed.

(** C5, as the code has it: the candidate lines are read off the luminance
    of the masked subject, not off the fill mask alone.  For an 8-bit
    subject, the fill mask of a run is binary, and the candidate lines are,
    in column order, one line for every column that has a lit row, with one
    point per lit row at that column's x; a row is lit where the fill mask
    is foreground and the subject's luminance is not zero. *)
Theorem candidate_lines_from_masked_luminance `{cv : Cv2}
    (original : matrix bgr) (image2 : image) (h w : nat)
    (threshvalue linestep : Z) :
  rect h w original -> uint8_image original ->
  let l := findcontours_body original image2 threshvalue linestep in
  binary_mask (l_mask l)
  /\ l_line_coordinates l =
     map (fun x => map (fun y => (Z.of_nat x, Z.of_nat y))
                       (lit_rows original (l_mask l) x))
         (lit_columns original (l_mask l)).
Proof.
  intros Hrect Hu l. subst l. cbn [l_mask l_line_coordinates findcontours_body].
  split; [apply fill_mask_binary|].
  apply (line_coordinates_lit h w); auto using fill_mask_binary with shape.
Qed.

(** A two-by-two subject whose upper-left pixel is black, against a white
    control. *)
Lemma candidate_lines_from_masked_luminance_witness :
  let l := findcontours_body (cv := small_cv2)
             [[BGR 0 0 0; BGR 9 9 9]; [BGR 9 9 9; BGR 9 9 9]]
             (Color [[white; white]; [white; white]]) 50 1 in
  l_line_coordinates l = [[(0, 1)]; [(1, 0); (1, 1)]].
Proof.
  intros l.
  destruct (candidate_lines_from_masked_luminance (cv := small_cv2)
              [[BGR 0 0 0; BGR 9 9 9]; [BGR 9 9 9; BGR 9 9 9]]
              (Color [[white; white]; [white; white]]) 2 2 50 1)
    as [_ Hl].
  - solve_literal.
  - solve_literal.
  - exact Hl.
Defined.

(** C5 as stated fails: on a one-pixel subject that is black, under a fill
    mask whose only pixel is foreground, column 0 of the mask has the
    foreground row 0, yet there is no candidate line; with the same mask a
    grey subject has one.  The same happens in a whole run on the small
    instance (black subject, white control). *)
Lemma candidate_lines_not_from_mask_alone :
  mask_rows [[white]] 0 = [0%nat]
  /\ mask_line_coordinates [[white]] = [[(0, 0)]]
  /\ line_coordinates (apply_mask [[BGR 0 0 0]] [[white]]) = []
  /\ line_coordinates (apply_mask [[BGR 9 9 9]] [[white]]) = [[(0, 0)]]
  /\ (let l := findcontours_body (cv := small_cv2)
                 [[BGR 0 0 0]] (Color [[white]]) 50 1 in
      l_mask l = [[white]]
      /\ l_line_coordinates l <> mask_line_coordinates (l_mask l)).
Proof. vm_compute. repeat split; try reflexivity. discriminate. Qed.

(** ** The masked export *)

Lemma pixel_zip_with {A B C} (f : A -> B -> C) (a : matrix A) (b : matrix B)
    x y :
  pixel (zip_with (zip_with f) a b) x y =
  p ← pixel a x y; q ← pixel b x y; Some (f p q).
Proof.
  unfold pixel. rewrite lookup_zip_with.
  destruct (a !! y) as [ra|]; [|done].
  destruct (b !! y) as [rb|]; simpl.
  - by rewrite lookup_zip_with.
  - by destruct (ra !! x).
Qed.

Lemma pixel_fmap {A B} (f : A -> B) (a : matrix A) x y :
  pixel (map (map f) a) x y = f <$> pixel a x y.
Proof.
  unfold pixel. rewrite list_lookup_fmap.
  destruct (a !! y) as [ra|]; [|done]. simpl. apply list_lookup_fmap.
Qed.

Lemma fill_mask_pixel `{Cv2} (img : matrix bgr) (cs : list contour) x y p :
  pixel img x y = Some p ->
  exists q, pixel (fill_mask img cs) x y = Some q /\ (q = black \/ q = white).
Proof.
  intros Hp. unfold fill_mask, drawContours.
  assert (pixel (zeros_like img) x y = Some black) as Hz.
  { unfold zeros_like. by rewrite pixel_fmap, Hp. }
  destruct cs as [|c cs]; [eauto|].
  rewrite pixel_paint, Hz. simpl.
  destruct (contour_cover _ _ _ _); eauto.
Qed.

Lemma save_selected_contours_writes `{cv : Cv2} `{io : Imwrite}
    (img : matrix bgr) (contours : list contour) (filepath : string)
    (disk : gmap string (matrix bgra)) :
  is_empty (Color img) = false ->
  has_encoder filepath = true -> can_write filepath = true ->
  save_selected_contours (Color img) contours filepath disk
  = (<[filepath := export_rgba img contours]> disk, Ok tt).
Proof.
  intros Hne Henc Hw. unfold save_selected_contours, imwrite.
  by rewrite Hne, Henc, Hw.
Qed.

Lemma save_selected_contours_outcome `{cv : Cv2} `{io : Imwrite}
    (img : matrix bgr) (contours : list contour) (filepath : string)
    (disk : gmap string (matrix bgra)) :
  save_selected_contours (Color img) contours filepath disk
  = if negb (is_empty (Color img)) && has_encoder filepath then
      if can_write filepath
      then (<[filepath := export_rgba img contours]> disk, Ok tt)
      else (disk, Ok tt)
    else (disk, Raise cv2_error).
Proof.
  unfold save_selected_contours, imwrite.
  destruct (is_empty (Color img)); [done|].
  destruct (has_encoder filepath); [|done].
  by destruct (can_write filepath).
Qed.

(** C6: the image that [save_selected_contours] builds for an 8-bit colour
    subject ([export_rgba], the local [rgba]) has, at every pixel, alpha
    255 where the contour fill mask is foreground and alpha 0 elsewhere,
    and at every foreground pixel its colour channels are the subject's.
    It is the only image the call ever puts on disk, and it is put there
    when the subject is not empty and [cv2.imwrite] finds an encoder for the
    file name and can write the file. *)
Theorem export_rgba_alpha `{cv : Cv2} `{io : Imwrite} (img : matrix bgr)
    (contours : list contour) :
  uint8_image img ->
  (forall x y p, pixel img x y = Some p ->
     exists q out,
       pixel (fill_mask img contours) x y = Some q
       /\ pixel (export_rgba img contours) x y = Some out
       /\ (q = white ->
             c_alpha out = 255
             /\ c_b out = blue p /\ c_g out = green p /\ c_r out = red p)
       /\ (q <> white -> c_alpha out = 0))
  /\ (forall filepath disk,
        fst (save_selected_contours (Color img) contours filepath disk)
        = disk
        \/ fst (save_selected_contours (Color img) contours filepath disk)
           = <[filepath := export_rgba img contours]> disk)
  /\ (forall filepath disk,
        is_empty (Color img) = false ->
        has_encoder filepath = true -> can_write filepath = true ->
        save_selected_contours (Color img) contours filepath disk
        = (<[filepath := export_rgba img contours]> disk, Ok tt)).
Proof.
  intros Hu. split; [|split].
  - intros x y p Hp.
    destruct (fill_mask_pixel img contours x y p Hp) as (q & Hq & Hbin).
    pose proof (pixel_Forall _ _ _ _ _ Hu Hp) as Hp8.
    unfold export_rgba, merge_bgra, bitwise_and, cvtColor_BGR2GRAY.
    rewrite !pixel_zip_with, pixel_fmap, Hp, Hq. simpl.
    eexists q, _. split; [reflexivity|]. split; [reflexivity|].
    destruct Hbin as [-> | ->]; simpl.
    + split; [intros [=]|done].
    + split; [|done]. intros _.
      rewrite !land_255 by apply Hp8. done.
  - intros filepath disk. rewrite save_selected_contours_outcome.
    destruct (negb _ && _); [|by left].
    destruct (can_write filepath); [by right|by left].
  - intros filepath disk. apply save_selected_contours_writes.
Qed.

(** Two pixels, the left one inside the only contour, written to
    "out.png". *)
Lemma export_rgba_alpha_witness :
  let img := [[BGR 10 20 30; BGR 40 50 60]] in
  let rgba := export_rgba (cv := small_cv2) img [[(0, 0)]] in
  save_selected_contours (cv := small_cv2) (io := png_files)
    (Color img) [[(0, 0)]] "out.png" ∅
  = (<["out.png" := rgba]> ∅, Ok tt)
  /\ (exists out, pixel rgba 0 0 = Some out
        /\ c_alpha out = 255 /\ c_b out = 10 /\ c_g out = 20 /\ c_r out = 30)
  /\ (exists out, pixel rgba 1 0 = Some out /\ c_alpha out = 0).
Proof.
  intros img rgba.
  destruct (export_rgba_alpha (cv := small_cv2) (io := png_files)
              img [[(0, 0)]]) as (Hpix & _ & Hsave); [solve_literal|].
  split; [by apply Hsave|]. split.
  - destruct (Hpix 0%nat 0%nat (BGR 10 20 30) eq_refl)
      as (q & out & Hq & Hout & Hfg & _).
    vm_compute in Hq. injection Hq as <-.
    exists out. split; [exact Hout|]. by apply Hfg.
  - destruct (Hpix 1%nat 0%nat (BGR 40 50 60) eq_refl)
      as (q & out & Hq & Hout & _ & Hbg).
    vm_compute in Hq. injection Hq as <-.
    exists out. split; [exact Hout|]. by apply Hbg.
Defined.

Lemma export_rgba_no_contours `{Cv2} (img : matrix bgr) :
  export_rgba img [] = map (map (fun _ => transparent)) img.
Proof.
  unfold export_rgba, fill_mask, drawContours, merge_bgra, bitwise_and,
    cvtColor_BGR2GRAY, zeros_like.
  induction img as [|row img IH]; [done|].
  cbn [map fmap list_fmap zip_with]. f_equal; [|exact IH].
  clear IH. induction row as [|p row IH]; [done|].
  cbn [map fmap list_fmap zip_with]. f_equal; [|exact IH].
  unfold and_bgr, black, transparent. simpl. by rewrite !Z.land_0_r.
Qed.

(** C7, as the code has it: an empty contour set is no reason for
    [save_selected_contours] to fail.  Whether the call raises is the same
    for the empty contour set as for any other.  For a subject that is not
    empty and a file that [cv2.imwrite] can encode and write, the call with
    no contour writes an image of the subject's size in which every pixel
    is fully transparent, and the "Export Contours" handler reports
    success.  When no contour set is stored ([None]) the handler returns
    without writing and without a message. *)
Theorem export_without_contours `{cv : Cv2} `{io : Imwrite}
    (img : matrix bgr) (filepath : string)
    (disk : gmap string (matrix bgra)) :
  (forall contours,
     snd (save_selected_contours (Color img) [] filepath disk)
     = snd (save_selected_contours (Color img) contours filepath disk))
  /\ (is_empty (Color img) = false ->
      has_encoder filepath = true -> can_write filepath = true ->
      save_selected_contours (Color img) [] filepath disk
      = (<[filepath := map (map (fun _ => transparent)) img]> disk, Ok tt))
  /\ (forall self, InjuryDetectionApp.contours self = None ->
        InjuryDetectionApp.save_selected_contours self filepath disk
        = (disk, None))
  /\ (forall self,
        InjuryDetectionApp.injury_img self = Some (Color img) ->
        InjuryDetectionApp.contours self = Some [] ->
        filepath <> "" ->
        is_empty (Color img) = false ->
        has_encoder filepath = true -> can_write filepath = true ->
        InjuryDetectionApp.save_selected_contours self filepath disk
        = (<[filepath := map (map (fun _ => transparent)) img]> disk,
           Some (InjuryDetectionApp.information "Export Successful"))).
Proof.
  split; [|split; [|split]].
  - intros contours. rewrite !save_selected_contours_outcome.
    destruct (negb _ && _); [|done]. by destruct (can_write filepath).
  - intros Hne Henc Hw.
    rewrite save_selected_contours_writes by done.
    by rewrite export_rgba_no_contours.
  - intros self Hnone. unfold InjuryDetectionApp.save_selected_contours.
    rewrite Hnone. by destruct (InjuryDetectionApp.injury_img self).
  - intros self Himg Hcs Hpath Hne Henc Hw.
    unfold InjuryDetectionApp.save_selected_contours.
    rewrite Himg, Hcs. rewrite decide_False by done.
    rewrite save_selected_contours_writes by done.
    by rewrite export_rgba_no_contours.
Qed.

(** A one-pixel subject exported with no contour to "out.png", and the
    handler on an application object that holds no contour set. *)
Lemma export_without_contours_witness :
  let self :=
    {| InjuryDetectionApp.injury_img := Some (Color [[BGR 10 20 30]]);
       InjuryDetectionApp.cropped_control := None;
       InjuryDetectionApp.result_img := None;
       InjuryDetectionApp.contours := None;
       InjuryDetectionApp.threshvalue := 50;
       InjuryDetectionApp.linestep := 10;
       InjuryDetectionApp.result_btn_enabled := false |} in
  save_selected_contours (cv := small_cv2) (io := png_files)
    (Color [[BGR 10 20 30]]) [] "out.png" ∅
  = (<["out.png" := [[transparent]]]> ∅, Ok tt)
  /\ InjuryDetectionApp.save_selected_contours (cv := small_cv2)
       (io := png_files) self "out.png" ∅ = (∅, None).
Proof.
  intros self.
  destruct (export_without_contours (cv := small_cv2) (io := png_files)
              [[BGR 10 20 30]] "out.png" ∅) as (_ & Hwrite & Hnone & _).
  split.
  - apply Hwrite; reflexivity.
  - apply (Hnone self). reflexivity.
Defined.

(** C7 as stated fails: with no contour the export of a one-pixel subject
    to "out.png" (a name with an encoder, a file that can be written)
    succeeds and leaves a file at the destination. *)
Lemma export_with_no_contours_succeeds :
  save_selected_contours (cv := small_cv2) (io := png_files)
    (Color [[BGR 10 20 30]]) [] "out.png" ∅
  = (<["out.png" := [[BGRA 0 0 0 0]]]> ∅, Ok tt)
  /\ (<["out.png" := [[BGRA 0 0 0 0]]]> (∅ : gmap string (matrix bgra)))
       !! "out.png" = Some [[BGRA 0 0 0 0]].
Proof. split; [reflexivity|]. apply lookup_insert_eq. Qed.

(** ** The crop transform *)

(** C8: [get_crop_coordinates] multiplies each display coordinate and
    dimension by the scale factor of its axis (original size / display
    size, truncated by [int]), then clamps [x], [y] into
    [0, original size - 1] and [w], [h] so that [x + w] and [y + h] stay
    within the original size.  For an original of 1000 by 500 shown at 500
    by 250, the display rectangle (100, 50, 100, 50) gives
    (200, 100, 200, 100). *)
Theorem crop_transform :
  (forall (ow oh display_w display_h : Z) (r : CropDialog.QRect)
          (x0 y0 w0 h0 : Z),
      let self := CropDialog.init ow oh display_w display_h (Some r) in
      CropDialog.isEmpty r = false ->
      1 <= ow -> 1 <= oh ->
      py_int (PrimFloat.mul (float_of_Z (CropDialog.rx r))
                            (true_div ow display_w)) = Ok x0 ->
      py_int (PrimFloat.mul (float_of_Z (CropDialog.ry r))
                            (true_div oh display_h)) = Ok y0 ->
      py_int (PrimFloat.mul (float_of_Z (CropDialog.rwidth r))
                            (true_div ow display_w)) = Ok w0 ->
      py_int (PrimFloat.mul (float_of_Z (CropDialog.rheight r))
                            (true_div oh display_h)) = Ok h0 ->
      exists x y w h,
        CropDialog.get_crop_coordinates self = Ok (Some (x, y, w, h))
        /\ x = Z.min (Z.max 0 x0) (ow - 1)
        /\ y = Z.min (Z.max 0 y0) (oh - 1)
        /\ w = Z.min w0 (ow - x)
        /\ h = Z.min h0 (oh - y)
        /\ 0 <= x <= ow - 1 /\ 0 <= y <= oh - 1
        /\ x + w <= ow /\ y + h <= oh)
  /\ CropDialog.get_crop_coordinates
       (CropDialog.init 1000 500 500 250
          (Some {| CropDialog.rx := 100; CropDialog.ry := 50;
                   CropDialog.rwidth := 100; CropDialog.rheight := 50 |}))
     = Ok (Some (200, 100, 200, 100)).
Proof.
  split; [|vm_compute; reflexivity].
  intros ow oh dw dh r x0 y0 w0 h0 self Hne How Hoh Hx Hy Hw Hh.
  unfold CropDialog.get_crop_coordinates, CropDialog.scaled. subst self.
  cbn [CropDialog.crop_rect CropDialog.init CropDialog.scale_x
       CropDialog.scale_y CropDialog.original_w CropDialog.original_h].
  rewrite Hne, Hx, Hy, Hw, Hh.
  cbn [mbind result_bind].
  do 4 eexists. split; [reflexivity|]. lia.
Qed.

(** A 640 by 480 original shown at half size, with a rectangle that starts
    left of the image and is wider than it. *)
Lemma crop_transform_witness :
  exists x y w h,
    CropDialog.get_crop_coordinates
      (CropDialog.init 640 480 320 240
         (Some {| CropDialog.rx := -4; CropDialog.ry := 7;
                  CropDialog.rwidth := 400; CropDialog.rheight := 30 |}))
    = Ok (Some (x, y, w, h))
    /\ 0 <= x <= 640 - 1 /\ 0 <= y <= 480 - 1
    /\ x + w <= 640 /\ y + h <= 480.
Proof.
  destruct (proj1 crop_transform 640 480 320 240
              {| CropDialog.rx := -4; CropDialog.ry := 7;
                 CropDialog.rwidth := 400; CropDialog.rheight := 30 |}
              (-8) 14 800 60)
    as (x & y & w & h & Hget & _ & _ & _ & _ & Hbounds);
    try reflexivity; try lia.
  exists x, y, w, h. split; [exact Hget | exact Hbounds].
Defined.

(** ** The control region *)

Lemma py_slice_eq {A} (lo hi : Z) (l : list A) :
  0 <= lo -> lo <= hi -> hi <= Z.of_nat (length l) ->
  py_slice lo hi l = take (Z.to_nat (hi - lo)) (drop (Z.to_nat lo) l).
Proof.
  intros Hlo Hhi Hlen. unfold py_slice.
  destruct (Z.ltb_spec hi 0), (Z.ltb_spec lo 0); try lia.
  by rewrite !Z.min_l by lia.
Qed.

Lemma py_slice_length {A} (lo hi : Z) (l : list A) :
  0 <= lo -> lo <= hi -> hi <= Z.of_nat (length l) ->
  length (py_slice lo hi l) = Z.to_nat (hi - lo).
Proof.
  intros Hlo Hhi Hlen. rewrite py_slice_eq by done.
  rewrite length_take, length_drop. lia.
Qed.

Lemma py_slice_Forall {A} (P : A -> Prop) (lo hi : Z) (l : list A) :
  Forall P l -> Forall P (py_slice lo hi l).
Proof. intros Hl. unfold py_slice. by apply Forall_take, Forall_drop. Qed.

Lemma crop_shape {A} (m : matrix A) (H W : nat) (x y w h : Z) :
  rect H W m -> 0 <= x -> 0 <= y -> 0 <= w -> 0 <= h ->
  x + w <= Z.of_nat W -> y + h <= Z.of_nat H ->
  rect (Z.to_nat h) (Z.to_nat w) (crop m x y w h).
Proof.
  intros [Hlen Hrows] Hx Hy Hw Hh HxW HyH. unfold crop. split.
  - rewrite length_fmap. rewrite py_slice_length; [f_equal; lia|..].
    all: lia.
  - apply Forall_fmap.
    eapply Forall_impl; [apply py_slice_Forall, Hrows|].
    intros row Hrow. simpl in *. rewrite py_slice_length; [f_equal; lia|..].
    all: lia.
Qed.

Lemma img_crop_size (img : image) (H W : nat) (x y w h : Z) :
  img_rect H W img -> 0 <= x -> 0 <= y -> 0 < w -> 0 < h ->
  x + w <= Z.of_nat W -> y + h <= Z.of_nat H ->
  img_rect (Z.to_nat h) (Z.to_nat w) (img_crop img x y w h)
  /\ img_size (img_crop img x y w h) <> 0%nat.
Proof.
  intros Hrect Hx Hy Hw Hh HxW HyH.
  destruct img as [m|m]; simpl in *.
  - pose proof (crop_shape m H W x y w h Hrect) as Hc.
    specialize (Hc ltac:(lia) ltac:(lia) ltac:(lia) ltac:(lia) HxW HyH).
    split; [exact Hc|].
    rewrite (rect_width _ _ _ Hc) by lia. destruct Hc as [Hc _].
    unfold height. rewrite Hc. nia.
  - pose proof (crop_shape m H W x y w h Hrect) as Hc.
    specialize (Hc ltac:(lia) ltac:(lia) ltac:(lia) ltac:(lia) HxW HyH).
    split; [exact Hc|].
    rewrite (rect_width _ _ _ Hc) by lia. destruct Hc as [Hc _].
    unfold height. rewrite Hc. nia.
Qed.

Lemma crop_control_rejects (self : InjuryDetectionApp.t) (img : image)
    (x y w h : Z) :
  InjuryDetectionApp.injury_img self = Some img ->
  w <= 10 \/ h <= 10 ->
  InjuryDetectionApp.crop_control self true (Ok (Some (x, y, w, h)))
  = (self, too_small).
Proof.
  intros Himg Hsmall. unfold InjuryDetectionApp.crop_control. rewrite Himg.
  destruct (Z.leb_spec w 10), (Z.leb_spec h 10); simpl; done || lia.
Qed.

Lemma crop_control_accepts (self : InjuryDetectionApp.t) (img : image)
    (H W : nat) (x y w h : Z) :
  InjuryDetectionApp.injury_img self = Some img ->
  img_rect H W img ->
  0 <= x -> 0 <= y -> x + w <= Z.of_nat W -> y + h <= Z.of_nat H ->
  11 <= w -> 11 <= h ->
  InjuryDetectionApp.crop_control self true (Ok (Some (x, y, w, h)))
  = accepted self img x y w h.
Proof.
  intros Himg Hrect Hx Hy HxW HyH Hw Hh.
  unfold InjuryDetectionApp.crop_control, accepted. rewrite Himg.
  destruct (Z.leb_spec w 10), (Z.leb_spec h 10); try lia. simpl.
  destruct (img_crop_size img H W x y w h Hrect) as [_ Hsize]; try lia.
  by destruct (Nat.eqb_spec (img_size (img_crop img x y w h)) 0).
Qed.

(** C9: [crop_control] rejects a control rectangle whose width or height
    in original space is at most 10 ("Selected region is too small."),
    leaving the application object as it was; a rectangle of width and
    height at least 11 that lies inside the image is accepted, stored as the
    control region, and enables the analysis.  In particular (w=10, h=20) is
    rejected and (w=11, h=11) is accepted. *)
Theorem crop_control_minimum_size (self : InjuryDetectionApp.t)
    (img : image) :
  InjuryDetectionApp.injury_img self = Some img ->
  (forall x y w h, w <= 10 \/ h <= 10 ->
     InjuryDetectionApp.crop_control self true (Ok (Some (x, y, w, h)))
     = (self, too_small))
  /\ (forall (H W : nat) x y w h,
       img_rect H W img -> 0 <= x -> 0 <= y ->
       x + w <= Z.of_nat W -> y + h <= Z.of_nat H ->
       11 <= w -> 11 <= h ->
       InjuryDetectionApp.crop_control self true (Ok (Some (x, y, w, h)))
       = accepted self img x y w h)
  /\ (forall x y,
       InjuryDetectionApp.crop_control self true (Ok (Some (x, y, 10, 20)))
       = (self, too_small))
  /\ (forall (H W : nat) x y,
       img_rect H W img -> 0 <= x -> 0 <= y ->
       x + 11 <= Z.of_nat W -> y + 11 <= Z.of_nat H ->
       InjuryDetectionApp.crop_control self true (Ok (Some (x, y, 11, 11)))
       = accepted self img x y 11 11).
Proof.
  intros Himg. repeat split.
  - intros x y w h Hsmall. by eapply crop_control_rejects.
  - intros H W x y w h Hrect Hx Hy HxW HyH Hw Hh.
    by eapply crop_control_accepts.
  - intros x y. eapply crop_control_rejects; [done|lia].
  - intros H W x y Hrect Hx Hy HxW HyH.
    eapply crop_control_accepts; done || lia.
Qed.

(** Both rectangles at (2, 3) of a 30 by 30 image. *)
Lemma crop_control_minimum_size_witness :
  let self := loaded (uniform 30 30 (BGR 1 2 3)) in
  InjuryDetectionApp.crop_control self true (Ok (Some (2, 3, 10, 20)))
  = (self, too_small)
  /\ InjuryDetectionApp.crop_control self true (Ok (Some (2, 3, 11, 11)))
     = ({| InjuryDetectionApp.injury_img := Some (uniform 30 30 (BGR 1 2 3));
           InjuryDetectionApp.cropped_control :=
             Some (uniform 11 11 (BGR 1 2 3));
           InjuryDetectionApp.result_img := None;
           InjuryDetectionApp.contours := None;
           InjuryDetectionApp.threshvalue := 50;
           InjuryDetectionApp.linestep := 10;
           InjuryDetectionApp.result_btn_enabled := true |},
        Some (InjuryDetectionApp.information "Success")).
Proof.
  intros self.
  destruct (crop_control_minimum_size self (uniform 30 30 (BGR 1 2 3))
              eq_refl) as (_ & _ & Hrej & Hacc).
  split; [apply Hrej|].
  apply (Hacc 30%nat 30%nat); try lia.
  solve_literal.
Defined.

(** ** The line step does not reach the contours *)

(** C10: for a fixed subject, control and threshold, the contour set that
    [findcontours] returns is the same for every line step (and a call that
    raises does so for every line step); the segmentation mask, the contour
    panel and the fill mask do not depend on it either. *)
Theorem contours_independent_of_linestep `{cv : Cv2}
    (image1 image2 : option image) (threshvalue linestep1 linestep2 : Z) :
  returned_contours (findcontours image1 image2 threshvalue linestep1)
  = returned_contours (findcontours image1 image2 threshvalue linestep2)
  /\ match findcontours_run image1 image2 threshvalue linestep1,
           findcontours_run image1 image2 threshvalue linestep2 with
     | Ok l1, Ok l2 =>
         l_contours l1 = l_contours l2
         /\ l_thresh l1 = l_thresh l2
         /\ l_contoured l1 = l_contoured l2
         /\ l_mask l1 = l_mask l2
     | Raise e1, Raise e2 => e1 = e2
     | _, _ => False
     end.
Proof.
  unfold findcontours, findcontours_run.
  destruct image1 as [image1|], image2 as [image2|]; try done.
  destruct (cv2_resize image2 (img_width image1) (img_height image1))
    as [resized|e]; [|done].
  destruct image1 as [m|original]; done.
Qed.

(** * Further properties of the pipeline *)

Lemma create_lines_max (L : list (list point)) (k : Z) :
  create_lines L k = create_lines L (Z.max 1 k).
Proof. unfold create_lines. by rewrite Z.max_assoc, Z.max_id. Qed.

Lemma create_lines_step_one (L : list (list point)) (k : Z) :
  k <= 1 -> create_lines L k = L.
Proof.
  intros Hk. rewrite create_lines_max. replace (Z.max 1 k) with 1 by lia.
  apply list_eq. intros j. rewrite create_lines_lookup by lia.
  f_equal. change (Z.to_nat 1) with 1%nat. lia.
Qed.

Lemma create_lines_step_large (L : list (list point)) (k : Z) :
  1 <= k -> Z.of_nat (length L) <= k -> create_lines L k = take 1 L.
Proof.
  intros Hk Hlen. apply list_eq. intros j.
  rewrite create_lines_lookup by lia.
  destruct j as [|j].
  - simpl. by destruct L.
  - rewrite lookup_take_ge by lia. apply lookup_ge_None. nia.
Qed.

Lemma ceil_div_antitone (n k1 k2 : Z) :
  0 <= n -> 1 <= k1 -> k1 <= k2 -> ceil_div n k2 <= ceil_div n k1.
Proof.
  intros Hn Hk1 Hk2.
  pose proof (ceil_div_bounds n k1 ltac:(lia)) as [_ H1].
  pose proof (ceil_div_bounds n k2 ltac:(lia)) as [H2 _].
  assert (0 <= ceil_div n k1).
  { unfold ceil_div. apply Z.div_pos; lia. }
  nia.
Qed.

Lemma create_lines_shorter (L : list (list point)) (k : Z) :
  (length (create_lines L k) <= length L)%nat.
Proof.
  rewrite create_lines_max.
  pose proof (create_lines_length L (Z.max 1 k) ltac:(lia)) as Hlen.
  pose proof (ceil_div_antitone (Z.of_nat (length L)) 1 (Z.max 1 k)
                ltac:(lia) ltac:(lia) ltac:(lia)) as Hle.
  assert (ceil_div (Z.of_nat (length L)) 1 = Z.of_nat (length L)) as Hone
    by (apply ceil_div_unique; lia).
  lia.
Qed.

Lemma width_apply_mask_le (o m : matrix bgr) :
  (width (apply_mask o m) <= width o)%nat.
Proof.
  unfold apply_mask, cvtColor_BGR2GRAY, bitwise_and.
  destruct o as [|ro o], m as [|rm m]; simpl; try lia.
  rewrite length_fmap, length_zip_with. lia.
Qed.

(** A larger line step never draws more scan lines; the lines drawn never
    outnumber the candidate lines, and those never outnumber the columns of
    the subject. *)
Theorem scan_lines_thin_out `{Cv2} (original : matrix bgr) (image2 : image)
    (threshvalue k1 k2 : Z) :
  1 <= k1 -> k1 <= k2 ->
  let run1 := findcontours_body original image2 threshvalue k1 in
  let run2 := findcontours_body original image2 threshvalue k2 in
  (length (l_lines run2) <= length (l_lines run1))%nat
  /\ (length (l_lines run1) <= length (l_line_coordinates run1))%nat
  /\ (length (l_line_coordinates run1) <= width original)%nat.
Proof.
  intros Hk1 Hk2 run1 run2. subst run1 run2.
  cbn [l_lines l_line_coordinates findcontours_body].
  set (L := line_coordinates _).
  split; [|split].
  - pose proof (create_lines_length L k1 ltac:(lia)) as H1.
    pose proof (create_lines_length L k2 ltac:(lia)) as H2.
    pose proof (ceil_div_antitone (Z.of_nat (length L)) k1 k2
                  ltac:(lia) Hk1 Hk2). lia.
  - apply create_lines_shorter.
  - subst L. rewrite line_coordinates_length. unfold nonempty_columns.
    etrans; [apply length_filter|]. rewrite length_seq.
    apply width_apply_mask_le.
Qed.

(** Three candidates: line steps 2 and 3. *)
Lemma scan_lines_thin_out_witness :
  let original := [[BGR 9 9 9; BGR 9 9 9; BGR 9 9 9]] in
  let image2 := Color [[BGR 90 90 90; BGR 90 90 90; BGR 90 90 90]] in
  (length (l_lines (findcontours_body (cv := small_cv2)
                      original image2 50 3)) <=
   length (l_lines (findcontours_body (cv := small_cv2)
                      original image2 50 2)))%nat.
Proof.
  intros original image2.
  apply (scan_lines_thin_out (H := small_cv2) original image2 50 2 3); lia.
Defined.

Lemma omap_all_None {A B} (f : A -> option B) (l : list A) :
  (forall x, x ∈ l -> f x = None) -> omap f l = [].
Proof.
  induction l as [|x l IH]; intros Hf; [done|].
  cbn [omap list_omap]. rewrite (Hf x) by left.
  apply IH. intros z Hz. apply Hf. by right.
Qed.

Lemma column_zero (g : matrix Z) (x : nat) :
  all_zero g -> Forall (fun p => p = 0) (column g x).
Proof.
  intros Hg. unfold column. apply Forall_fmap.
  eapply Forall_impl; [exact Hg|]. intros row Hrow. simpl.
  destruct (row !! x) as [p|] eqn:Hp; [|done]. simpl.
  rewrite Forall_lookup in Hrow. by eapply Hrow.
Qed.

Lemma countNonZero_zero (v : list Z) :
  Forall (fun p => p = 0) v -> countNonZero v = 0%nat.
Proof.
  unfold countNonZero. induction 1 as [|p v -> _ IH]; [done|].
  rewrite filter_cons. by destruct (decide (0 <> 0)).
Qed.

Lemma line_coordinates_zero (g : matrix Z) :
  all_zero g -> line_coordinates g = [].
Proof.
  intros Hg. unfold line_coordinates. apply omap_all_None. intros x _.
  cbn zeta. by rewrite (countNonZero_zero _ (column_zero g x Hg)).
Qed.

Lemma apply_mask_zeros (o : matrix bgr) :
  all_zero (apply_mask o (zeros_like o)).
Proof.
  unfold all_zero, apply_mask, cvtColor_BGR2GRAY, bitwise_and, zeros_like.
  induction o as [|row o IH]; [constructor|].
  cbn [map fmap list_fmap zip_with]. constructor; [|exact IH].
  clear IH. induction row as [|p row IH]; [constructor|].
  cbn [map fmap list_fmap zip_with]. constructor; [|exact IH].
  by rewrite and_bgr_black.
Qed.

(** When the segmentation finds no contour, nothing is drawn: the masked
    luminance is zero, there is no scan line, and the composite is the
    subject three times side by side. *)
Theorem no_contours_plain_composite `{Cv2} (original : matrix bgr)
    (image2 : image) (threshvalue linestep : Z) :
  let run := findcontours_body original image2 threshvalue linestep in
  l_contours run = [] ->
  l_contoured run = original
  /\ all_zero (l_result_gray run)
  /\ l_lines run = []
  /\ l_lined run = original
  /\ l_combined run = hstack3 original original original.
Proof.
  intros run Hnone. subst run.
  cbn [l_contours l_contoured l_result_gray l_lines l_lined l_combined
       findcontours_body] in *.
  rewrite Hnone. cbn [drawContours].
  pose proof (apply_mask_zeros original) as Hz.
  rewrite (line_coordinates_zero _ Hz).
  by repeat split.
Qed.

(** An image against itself. *)
Lemma no_contours_plain_composite_witness :
  let original := [[BGR 10 20 30; BGR 40 50 60]] in
  l_combined (findcontours_body (cv := small_cv2)
                original (Color original) 50 10)
  = hstack3 original original original.
Proof.
  intros original.
  apply (no_contours_plain_composite (H := small_cv2)
           original (Color original) 50 10).
  reflexivity.
Defined.


Lemma export_rgba_pixel `{Cv2} (img : matrix bgr) (cs : list contour) x y :
  pixel (export_rgba img cs) x y =
  p ← pixel img x y; q ← pixel (fill_mask img cs) x y;
  Some (BGRA (blue (and_bgr p q)) (green (and_bgr p q)) (red (and_bgr p q))
             (gray_of_bgr q)).
Proof.
  unfold export_rgba, merge_bgra, bitwise_and, cvtColor_BGR2GRAY.
  rewrite !pixel_zip_with, pixel_fmap.
  destruct (pixel img x y) as [p|]; [|done].
  by destruct (pixel (fill_mask img cs) x y) as [q|].
Qed.

Lemma export_rgba_rect `{Cv2} h w (img : matrix bgr) (cs : list contour) :
  rect h w img -> rect h w (export_rgba img cs).
Proof.
  intros Hr.
  assert (rect h w (fill_mask img cs)) as Hm
    by (unfold fill_mask; auto using drawContours_rect, zeros_like_rect).
  destruct Hr as [Hlen Hrows], Hm as [Hmlen Hmrows].
  unfold export_rgba, merge_bgra, bitwise_and, cvtColor_BGR2GRAY.
  split.
  - rewrite !length_zip_with, length_fmap. lia.
  - rewrite Forall_lookup. intros j row.
    rewrite lookup_zip_with, lookup_zip_with, list_lookup_fmap.
    destruct (img !! j) as [ri|] eqn:Hi; [|done].
    destruct (fill_mask img cs !! j) as [rm|] eqn:Hj; [|done].
    simpl. intros [= <-].
    rewrite Forall_lookup in Hrows, Hmrows.
    rewrite !length_zip_with, length_fmap.
    rewrite (Hrows _ _ Hi), (Hmrows _ _ Hj). lia.
Qed.

(** The exported image has the subject's shape, and every pixel outside the
    fill mask is exported as (0, 0, 0, 0): the subject's colours outside the
    selected region do not reach the file. *)
Theorem export_keeps_shape_and_hides_background `{Cv2} (h w : nat)
    (img : matrix bgr) (contours : list contour) :
  rect h w img ->
  rect h w (export_rgba img contours)
  /\ forall x y q,
       pixel (fill_mask img contours) x y = Some q -> q <> white ->
       pixel (export_rgba img contours) x y = Some transparent.
Proof.
  intros Hr. split; [by apply export_rgba_rect|].
  intros x y q Hq Hnw. rewrite export_rgba_pixel, Hq.
  destruct (pixel img x y) as [p|] eqn:Hp.
  - destruct (fill_mask_pixel img contours x y p Hp) as (q' & Hq' & Hbin).
    rewrite Hq in Hq'. injection Hq' as <-.
    destruct Hbin as [-> | ->]; [|done].
    simpl. unfold transparent. by rewrite !Z.land_0_r.
  - exfalso. unfold fill_mask, drawContours in Hq.
    assert (pixel (zeros_like img) x y = None) as Hz
      by (unfold zeros_like; by rewrite pixel_fmap, Hp).
    destruct contours; [congruence|].
    rewrite pixel_paint, Hz in Hq. done.
Qed.

Lemma create_lines_subset (L : list (list point)) (k : Z) line :
  line ∈ create_lines L k -> line ∈ L.
Proof.
  rewrite create_lines_max. intros Hin.
  apply list_elem_of_lookup in Hin as [j Hj].
  rewrite create_lines_lookup in Hj by lia.
  apply list_elem_of_lookup. eauto.
Qed.

Lemma lit_true (o m : matrix bgr) x y :
  lit o m x y = true ->
  pixel m x y = Some white
  /\ exists p, pixel o x y = Some p /\ 0 < gray_of_bgr p.
Proof.
  unfold lit. destruct (pixel m x y) as [q|]; [|done].
  destruct (pixel o x y) as [p|]; [|done].
  intros [Hq Hp]%andb_prop. apply bool_decide_eq_true in Hq as ->.
  apply Z.ltb_lt in Hp. eauto.
Qed.

Lemma pixel_lt {A} h w (m : matrix A) x y p :
  rect h w m -> pixel m x y = Some p -> (x < w)%nat /\ (y < h)%nat.
Proof.
  intros Hr. unfold pixel.
  destruct (m !! y) as [row|] eqn:Hrow; [|done]. simpl. intros Hp.
  pose proof (rect_row _ _ _ _ _ Hr Hrow) as Hlen.
  apply lookup_lt_Some in Hp, Hrow. destruct Hr as [Hh _]. lia.
Qed.

Lemma scan_line_point_lit `{Cv2} (original : matrix bgr) (image2 : image)
    (h w : nat) (threshvalue linestep : Z) line x y :
  rect h w original -> uint8_image original ->
  let run := findcontours_body original image2 threshvalue linestep in
  line ∈ l_lines run -> (x, y) ∈ line ->
  exists xn yn : nat,
    x = Z.of_nat xn /\ y = Z.of_nat yn
    /\ lit original (l_mask run) xn yn = true.
Proof.
  intros Hr Hu run Hline Hpt. subst run.
  cbn [l_lines l_mask findcontours_body] in *.
  apply create_lines_subset in Hline.
  rewrite (line_coordinates_lit h w) in Hline;
    auto using fill_mask_binary, drawContours_rect, zeros_like_rect.
  apply list_elem_of_fmap in Hline as (xn & -> & Hxn).
  apply list_elem_of_fmap in Hpt as (yn & [= -> ->] & Hyn).
  exists xn, yn. split; [done|]. split; [done|].
  unfold lit_rows in Hyn. by apply list_elem_of_filter in Hyn as [Hlit _].
Qed.

(** Every point of every scan line that is drawn lies inside the subject,
    on a pixel that the fill mask marks as foreground and whose luminance is
    not zero. *)
Theorem scan_line_points_inside_mask `{Cv2} (original : matrix bgr)
    (image2 : image) (h w : nat) (threshvalue linestep : Z) line x y :
  rect h w original -> uint8_image original ->
  let run := findcontours_body original image2 threshvalue linestep in
  line ∈ l_lines run -> (x, y) ∈ line ->
  exists xn yn : nat,
    x = Z.of_nat xn /\ y = Z.of_nat yn
    /\ (xn < w)%nat /\ (yn < h)%nat
    /\ pixel (l_mask run) xn yn = Some white
    /\ exists p, pixel original xn yn = Some p /\ 0 < gray_of_bgr p.
Proof.
  intros Hr Hu run Hline Hpt.
  destruct (scan_line_point_lit original image2 h w threshvalue linestep
              line x y Hr Hu Hline Hpt) as (xn & yn & -> & -> & Hlit).
  apply lit_true in Hlit as (Hm & p & Hp & Hg).
  destruct (pixel_lt h w original xn yn p Hr Hp) as [Hx Hy].
  exists xn, yn. split_and!; try done. eauto.
Qed.

(** The point (1, 0) of the second candidate line of a two-by-two run. *)
Lemma scan_line_points_inside_mask_witness :
  let original := [[BGR 0 0 0; BGR 9 9 9]; [BGR 9 9 9; BGR 9 9 9]] in
  let run := findcontours_body (cv := small_cv2) original
               (Color [[white; white]; [white; white]]) 50 1 in
  exists xn yn : nat,
    1 = Z.of_nat xn /\ 0 = Z.of_nat yn
    /\ pixel (l_mask run) xn yn = Some white.
Proof.
  intros original run.
  destruct (scan_line_points_inside_mask (H := small_cv2) original
              (Color [[white; white]; [white; white]]) 2 2 50 1
              [(1, 0); (1, 1)] 1 0)
    as (xn & yn & Hx & Hy & _ & _ & Hm & _).
  - solve_literal.
  - solve_literal.
  - vm_compute. apply list_elem_of_In. right. by left.
  - by left.
  - exists xn, yn. done.
Defined.

(** [findcontours] and [save_selected_contours] agree: exporting the
    subject with the contours of a run gives, at every point of every scan
    line of that run, an opaque pixel with the subject's colour. *)
Theorem scan_line_points_are_exported_opaque `{Cv2} (original : matrix bgr)
    (image2 : image) (h w : nat) (threshvalue linestep : Z) line x y :
  rect h w original -> uint8_image original ->
  let run := findcontours_body original image2 threshvalue linestep in
  line ∈ l_lines run -> (x, y) ∈ line ->
  exists (xn yn : nat) p,
    x = Z.of_nat xn /\ y = Z.of_nat yn
    /\ pixel original xn yn = Some p
    /\ pixel (export_rgba original (l_contours run)) xn yn
       = Some (BGRA (blue p) (green p) (red p) 255).
Proof.
  intros Hr Hu run Hline Hpt.
  destruct (scan_line_point_lit original image2 h w threshvalue linestep
              line x y Hr Hu Hline Hpt) as (xn & yn & -> & -> & Hlit).
  apply lit_true in Hlit as (Hm & p & Hp & Hg).
  exists xn, yn, p. split_and!; try done.
  rewrite export_rgba_pixel, Hp.
  subst run. cbn [l_mask l_contours findcontours_body] in *.
  unfold fill_mask. rewrite Hm. cbn [mbind option_bind].
  rewrite and_bgr_white by (eapply pixel_Forall; [exact Hu|exact Hp]).
  reflexivity.
Qed.

(** The same point, exported. *)
Lemma scan_line_points_are_exported_opaque_witness :
  let original := [[BGR 0 0 0; BGR 9 9 9]; [BGR 9 9 9; BGR 9 9 9]] in
  let run := findcontours_body (cv := small_cv2) original
               (Color [[white; white]; [white; white]]) 50 1 in
  exists (xn yn : nat) p,
    1 = Z.of_nat xn /\ 0 = Z.of_nat yn
    /\ pixel original xn yn = Some p
    /\ pixel (export_rgba (cv := small_cv2) original (l_contours run)) xn yn
       = Some (BGRA (blue p) (green p) (red p) 255).
Proof.
  intros original run.
  apply (scan_line_points_are_exported_opaque (H := small_cv2) original
           (Color [[white; white]; [white; white]]) 2 2 50 1
           [(1, 0); (1, 1)] 1 0).
  - solve_literal.
  - solve_literal.
  - vm_compute. apply list_elem_of_In. right. by left.
  - by left.
Defined.

Lemma filter_seq_lookup_lt (P : nat -> Prop) `{!forall x, Decision (P x)}
    (a n i j x y : nat) :
  (i < j)%nat ->
  filter P (seq a n) !! i = Some x -> filter P (seq a n) !! j = Some y ->
  (x < y)%nat.
Proof.
  revert a i j. induction n as [|n IH]; intros a i j Hij Hx Hy; [done|].
  cbn [seq] in Hx, Hy. rewrite filter_cons in Hx, Hy.
  destruct (decide (P a)); [|by eapply IH].
  destruct j as [|j]; [lia|]. simpl in Hy.
  destruct i as [|i]; simpl in Hx.
  - injection Hx as <-.
    apply list_elem_of_lookup_2, list_elem_of_filter in Hy as [_ Hy].
    apply elem_of_seq in Hy. lia.
  - eapply (IH (S a) i j); [lia|done|done].
Qed.

Lemma line_coordinates_shape `{Cv2} (original : matrix bgr) (image2 : image)
    (h w : nat) (threshvalue linestep : Z) :
  rect h w original -> uint8_image original ->
  let run := findcontours_body original image2 threshvalue linestep in
  l_line_coordinates run =
  map (fun x => map (fun y => (Z.of_nat x, Z.of_nat y))
                    (lit_rows original (l_mask run) x))
      (lit_columns original (l_mask run)).
Proof.
  intros Hr Hu run. subst run.
  cbn [l_line_coordinates l_mask findcontours_body].
  apply (line_coordinates_lit h w);
    auto using fill_mask_binary, drawContours_rect, zeros_like_rect.
Qed.

(** The scan lines drawn are never empty; each one stays in a single
    column with its rows strictly increasing (top to bottom); and the
    columns of successive lines strictly increase (left to right). *)
Theorem scan_lines_run_left_to_right `{Cv2} (original : matrix bgr)
    (image2 : image) (h w : nat) (threshvalue linestep : Z) :
  rect h w original -> uint8_image original ->
  let run := findcontours_body original image2 threshvalue linestep in
  (forall line, line ∈ l_lines run -> line <> [])
  /\ (forall line (a b : nat) pa pb,
        line ∈ l_lines run -> (a < b)%nat ->
        line !! a = Some pa -> line !! b = Some pb ->
        pa.1 = pb.1 /\ pa.2 < pb.2)
  /\ (forall (i j : nat) li lj pi pj,
        (i < j)%nat ->
        l_lines run !! i = Some li -> l_lines run !! j = Some lj ->
        pi ∈ li -> pj ∈ lj -> pi.1 < pj.1).
Proof.
  intros Hr Hu run.
  pose proof (line_coordinates_shape original image2 h w threshvalue linestep
                Hr Hu) as Hshape.
  cbn zeta in Hshape. fold run in Hshape.
  assert (forall j : nat, l_lines run !! j =
            l_line_coordinates run
              !! (j * Z.to_nat (Z.max 1 linestep))%nat) as Hlook.
  { intros j. subst run. cbn [l_lines l_line_coordinates findcontours_body].
    rewrite create_lines_max. apply create_lines_lookup. lia. }
  assert (forall line, line ∈ l_lines run ->
            exists xn, xn ∈ lit_columns original (l_mask run)
              /\ line = map (fun y => (Z.of_nat xn, Z.of_nat y))
                            (lit_rows original (l_mask run) xn)) as Hline.
  { intros line Hin. apply list_elem_of_lookup in Hin as [j Hj].
    rewrite Hlook, Hshape in Hj.
    apply list_lookup_fmap_Some in Hj as (xn & -> & Hxn).
    exists xn. split; [|done]. apply list_elem_of_lookup. eauto. }
  split; [|split].
  - intros line Hin. destruct (Hline line Hin) as (xn & Hxn & ->).
    unfold lit_columns in Hxn. apply list_elem_of_filter in Hxn as [Hne _].
    destruct (lit_rows original (l_mask run) xn); done.
  - intros line a b pa pb Hin Hab Ha Hb.
    destruct (Hline line Hin) as (xn & _ & ->).
    apply list_lookup_fmap_Some in Ha as (ya & -> & Hya).
    apply list_lookup_fmap_Some in Hb as (yb & -> & Hyb).
    split; [done|]. simpl.
    pose proof (filter_seq_lookup_lt _ _ _ _ _ _ _ Hab Hya Hyb). lia.
  - intros i j li lj pi pj Hij Hi Hj Hpi Hpj.
    rewrite Hlook, Hshape in Hi, Hj.
    apply list_lookup_fmap_Some in Hi as (xi & -> & Hxi).
    apply list_lookup_fmap_Some in Hj as (xj & -> & Hxj).
    apply list_elem_of_fmap in Hpi as (yi & -> & _).
    apply list_elem_of_fmap in Hpj as (yj & -> & _).
    simpl.
    assert (i * Z.to_nat (Z.max 1 linestep)
            < j * Z.to_nat (Z.max 1 linestep))%nat as Hlt by nia.
    pose proof (filter_seq_lookup_lt _ _ _ _ _ _ _ Hlt Hxi Hxj). lia.
Qed.

(** No empty line in a two-by-two run. *)
Lemma scan_lines_run_left_to_right_witness :
  let original := [[BGR 0 0 0; BGR 9 9 9]; [BGR 9 9 9; BGR 9 9 9]] in
  let run := findcontours_body (cv := small_cv2) original
               (Color [[white; white]; [white; white]]) 50 1 in
  exists line pa pb,
    l_lines run !! 1%nat = Some line
    /\ line !! 0%nat = Some pa /\ line !! 1%nat = Some pb
    /\ line <> [] /\ pa.1 = pb.1 /\ pa.2 < pb.2.
Proof.
  intros original run.
  destruct (scan_lines_run_left_to_right (H := small_cv2) original
              (Color [[white; white]; [white; white]]) 2 2 50 1)
    as (Hne & Hcol & _); [solve_literal|solve_literal|].
  assert ([(1, 0); (1, 1)] ∈ l_lines run) as Hin
    by (vm_compute; apply list_elem_of_In; right; by left).
  exists [(1, 0); (1, 1)], (1, 0), (1, 1).
  split; [reflexivity|]. split; [reflexivity|]. split; [reflexivity|].
  split; [by apply Hne|].
  apply (Hcol [(1, 0); (1, 1)] 0%nat 1%nat); [exact Hin|lia|done|done].
Defined.

(** A line step of 1 or less (zero and negative values included, by
    [max(1, linestep)]) keeps every candidate line; a line step that is at
    least the number of candidate lines keeps only the first one. *)
Theorem line_step_extremes `{Cv2} (original : matrix bgr) (image2 : image)
    (threshvalue linestep : Z) :
  let run := findcontours_body original image2 threshvalue linestep in
  (linestep <= 1 -> l_lines run = l_line_coordinates run)
  /\ (1 <= linestep ->
      Z.of_nat (length (l_line_coordinates run)) <= linestep ->
      l_lines run = take 1 (l_line_coordinates run)).
Proof.
  intros run. subst run. cbn [l_lines l_line_coordinates findcontours_body].
  split.
  - apply create_lines_step_one.
  - apply create_lines_step_large.
Qed.

(** Three candidates at line steps 0 and 7. *)
Lemma line_step_extremes_witness :
  let original := [[BGR 9 9 9; BGR 9 9 9; BGR 9 9 9]] in
  let image2 := Color [[BGR 90 90 90; BGR 90 90 90; BGR 90 90 90]] in
  l_lines (findcontours_body (cv := small_cv2) original image2 50 0)
  = [[(0, 0)]; [(1, 0)]; [(2, 0)]]
  /\ l_lines (findcontours_body (cv := small_cv2) original image2 50 7)
     = [[(0, 0)]].
Proof.
  intros original image2. split.
  - apply (proj1 (line_step_extremes (H := small_cv2)
                    original image2 50 0)). lia.
  - apply (proj2 (line_step_extremes (H := small_cv2)
                    original image2 50 7)); [lia|]. vm_compute. discriminate.
Defined.

Lemma py_slice_lookup {A} (lo hi : Z) (l : list A) (i : nat) :
  0 <= lo -> lo <= hi -> hi <= Z.of_nat (length l) ->
  Z.of_nat i < hi - lo ->
  py_slice lo hi l !! i = l !! (Z.to_nat lo + i)%nat.
Proof.
  intros Hlo Hhi Hlen Hi. rewrite py_slice_eq by done.
  rewrite lookup_take_lt by lia. apply lookup_drop.
Qed.

(** [img[y:y+h, x:x+w]] for a rectangle inside the image has [h] rows and
    [w] columns, and its pixel at column [i], row [j] is the image's pixel
    at column [x + i], row [y + j]. *)
Theorem crop_is_the_selected_block {A} (m : matrix A) (H W : nat)
    (x y w h : Z) :
  rect H W m -> 0 <= x -> 0 <= y -> 0 <= w -> 0 <= h ->
  x + w <= Z.of_nat W -> y + h <= Z.of_nat H ->
  rect (Z.to_nat h) (Z.to_nat w) (crop m x y w h)
  /\ forall i j : nat,
       Z.of_nat i < w -> Z.of_nat j < h ->
       pixel (crop m x y w h) i j
       = pixel m (Z.to_nat x + i) (Z.to_nat y + j).
Proof.
  intros Hr Hx Hy Hw Hh HxW HyH. split; [by apply (crop_shape m H W)|].
  intros i j Hi Hj. unfold pixel, crop.
  rewrite list_lookup_fmap.
  destruct Hr as [Hlen Hrows].
  rewrite py_slice_lookup by lia.
  destruct (m !! (Z.to_nat y + j)%nat) as [row|] eqn:Hrow; [|done].
  cbn [fmap option_fmap option_map mbind option_bind].
  rewrite Forall_lookup in Hrows. specialize (Hrows _ _ Hrow).
  apply py_slice_lookup; lia.
Qed.

(** The lower-right two-by-two block of a three-by-three array. *)
Lemma crop_is_the_selected_block_witness :
  pixel (crop [[1; 2; 3]; [4; 5; 6]; [7; 8; 9]] 1 1 2 2) 1 0 = Some 6.
Proof.
  rewrite (proj2 (crop_is_the_selected_block
                    [[1; 2; 3]; [4; 5; 6]; [7; 8; 9]] 3 3 1 1 2 2
                    ltac:(solve_literal) ltac:(lia) ltac:(lia) ltac:(lia)
                    ltac:(lia) ltac:(lia) ltac:(lia)) 1%nat 0%nat)
    by lia.
  reflexivity.
Defined.

Lemma get_crop_coordinates_bounds (d : CropDialog.t) (x y w h : Z) :
  CropDialog.get_crop_coordinates d = Ok (Some (x, y, w, h)) ->
  1 <= CropDialog.original_w d -> 1 <= CropDialog.original_h d ->
  0 <= x <= CropDialog.original_w d - 1
  /\ 0 <= y <= CropDialog.original_h d - 1
  /\ x + w <= CropDialog.original_w d
  /\ y + h <= CropDialog.original_h d.
Proof.
  unfold CropDialog.get_crop_coordinates.
  destruct (CropDialog.crop_rect d) as [r|]; [|done].
  destruct (CropDialog.isEmpty r); [done|].
  destruct (CropDialog.scaled (CropDialog.rx r) _) as [x0|]; [|done].
  destruct (CropDialog.scaled (CropDialog.ry r) _) as [y0|]; [|done].
  destruct (CropDialog.scaled (CropDialog.rwidth r) _) as [w0|]; [|done].
  destruct (CropDialog.scaled (CropDialog.rheight r) _) as [h0|]; [|done].
  cbn [mbind result_bind]. intros [= <- <- <- <-] How Hoh. lia.
Qed.

(** [crop_control] on the coordinates that [get_crop_coordinates] gives
    for a dialog opened on the loaded image: either the application object
    is left as it was (no selection, too small, or an exception), or a
    control region of exactly [w] by [h] pixels, both at least 11, is stored
    and the analysis enabled.  The branch "Failed to crop image." is never
    taken. *)
Theorem crop_selection_outcomes (self : InjuryDetectionApp.t) (img : image)
    (H W : nat) (d : CropDialog.t) :
  InjuryDetectionApp.injury_img self = Some img ->
  img_rect H W img -> (0 < H)%nat -> (0 < W)%nat ->
  CropDialog.original_w d = Z.of_nat W ->
  CropDialog.original_h d = Z.of_nat H ->
  let out := InjuryDetectionApp.crop_control self true
               (CropDialog.get_crop_coordinates d) in
  (fst out = self
   /\ snd out <> Some (InjuryDetectionApp.warning "Crop Error"
                                                 "Failed to crop image."))
  \/ exists x y w h,
       CropDialog.get_crop_coordinates d = Ok (Some (x, y, w, h))
       /\ 11 <= w /\ 11 <= h
       /\ out = accepted self img x y w h
       /\ img_rect (Z.to_nat h) (Z.to_nat w) (img_crop img x y w h).
Proof.
  intros Himg Hrect HH HW How Hoh out. subst out.
  destruct (CropDialog.get_crop_coordinates d)
    as [[[[[x y] w] h]|]|e] eqn:Hget.
  - destruct (get_crop_coordinates_bounds d x y w h Hget)
      as (Hx & Hy & HxW & HyH); [lia|lia|].
    destruct (decide (w <= 10 \/ h <= 10)) as [Hsmall|Hbig].
    + left. rewrite (crop_control_rejects self img x y w h) by done.
      split; [done|]. unfold too_small. intros [=].
    + right. exists x, y, w, h. split; [done|].
      split; [lia|]. split; [lia|].
      split.
      * apply (crop_control_accepts self img H W); lia || done.
      * apply (img_crop_size img H W); lia || done.
  - left. unfold InjuryDetectionApp.crop_control. rewrite Himg.
    split; [done|]. intros [=].
  - left. unfold InjuryDetectionApp.crop_control. rewrite Himg.
    split; [done|]. intros [=].
Qed.

(** A rectangle that sticks out of a 30 by 30 image on the right. *)
Lemma crop_selection_outcomes_witness :
  let self := loaded (uniform 30 30 (BGR 1 2 3)) in
  let d := CropDialog.init 30 30 30 30
             (Some {| CropDialog.rx := 2; CropDialog.ry := 3;
                      CropDialog.rwidth := 40; CropDialog.rheight := 12 |}) in
  let out := InjuryDetectionApp.crop_control self true
               (CropDialog.get_crop_coordinates d) in
  (fst out = self
   /\ snd out <> Some (InjuryDetectionApp.warning "Crop Error"
                                                 "Failed to crop image."))
  \/ exists x y w h,
       CropDialog.get_crop_coordinates d = Ok (Some (x, y, w, h))
       /\ 11 <= w /\ 11 <= h
       /\ out = accepted self (uniform 30 30 (BGR 1 2 3)) x y w h
       /\ img_rect (Z.to_nat h) (Z.to_nat w)
                   (img_crop (uniform 30 30 (BGR 1 2 3)) x y w h).
Proof.
  intros self d.
  apply (crop_selection_outcomes self (uniform 30 30 (BGR 1 2 3)) 30 30 d).
  - reflexivity.
  - solve_literal.
  - lia.
  - lia.
  - reflexivity.
  - reflexivity.
Defined.

Lemma absdiff_comm (a b : matrix Z) : absdiff a b = absdiff b a.
Proof.
  unfold absdiff. revert b.
  induction a as [|ra a IH]; intros [|rb b]; try done.
  cbn [zip_with]. f_equal; [|apply IH].
  clear IH. revert rb. induction ra as [|p ra IH]; intros [|q rb]; try done.
  cbn [zip_with]. f_equal; [lia|apply IH].
Qed.

(** For two colour images of one size, and the OpenCV laws [Cv2Laws], the
    difference map and the contour set returned do not depend on which
    image is the subject and which the control. *)
Theorem subject_and_control_swap `{cv : Cv2} {laws : Cv2Laws cv}
    (a b : matrix bgr) (h w : nat) (threshvalue linestep : Z) :
  rect h w a -> rect h w b -> (0 < h)%nat -> (0 < w)%nat ->
  difference_map (Color a) (Color b) = difference_map (Color b) (Color a)
  /\ returned_contours
       (findcontours (Some (Color a)) (Some (Color b)) threshvalue linestep)
     = returned_contours
         (findcontours (Some (Color b)) (Some (Color a)) threshvalue linestep)
  /\ exists contours,
       returned_contours
         (findcontours (Some (Color a)) (Some (Color b))
                       threshvalue linestep) = Ok contours.
Proof.
  intros Ha Hb Hh Hw.
  assert (difference_map (Color a) (Color b)
          = difference_map (Color b) (Color a)) as Hd
    by apply absdiff_comm.
  assert (forall m m' : matrix bgr, rect h w m -> rect h w m' ->
            cv2_resize (Color m') (img_width (Color m)) (img_height (Color m))
            = Ok (Color m')) as Hres.
  { intros m m' Hm Hm'.
    replace (img_width (Color m)) with (img_width (Color m')).
    2:{ simpl. by rewrite (rect_width h w m), (rect_width h w m'). }
    replace (img_height (Color m)) with (img_height (Color m')).
    2:{ simpl. unfold height. destruct Hm as [-> _], Hm' as [-> _]. done. }
    apply cv2_resize_same. unfold is_empty. simpl.
    rewrite (rect_width h w m') by done. destruct Hm' as [Hl _].
    unfold height. rewrite Hl. by destruct h, w; try lia. }
  split; [exact Hd|].
  unfold findcontours, findcontours_run.
  rewrite (Hres a b), (Hres b a) by done.
  cbn. unfold external_contours, segmentation_mask, smoothed_map.
  rewrite Hd. split; [done|]. eauto.
Qed.

(** Two one-row images. *)
Lemma subject_and_control_swap_witness :
  let a := [[BGR 0 0 0; BGR 100 100 100]] in
  let b := [[BGR 50 50 50; BGR 250 250 250]] in
  returned_contours
    (findcontours (cv := small_cv2) (Some (Color a)) (Some (Color b)) 60 10)
  = returned_contours
      (findcontours (cv := small_cv2) (Some (Color b)) (Some (Color a)) 60 10).
Proof.
  intros a b.
  apply (subject_and_control_swap (cv := small_cv2) (laws := small_cv2_laws)
           a b 1 2 60 10); solve_literal || lia.
Defined.

(** Two pixels, the left one inside the only contour. *)
Lemma export_keeps_shape_and_hides_background_witness :
  rect 1 2 (export_rgba (cv := small_cv2)
              [[BGR 10 20 30; BGR 40 50 60]] [[(0, 0)]])
  /\ pixel (export_rgba (cv := small_cv2)
              [[BGR 10 20 30; BGR 40 50 60]] [[(0, 0)]]) 1 0
     = Some transparent.
Proof.
  destruct (export_keeps_shape_and_hides_background (H := small_cv2) 1 2
              [[BGR 10 20 30; BGR 40 50 60]] [[(0, 0)]])
    as [Hshape Hbg]; [solve_literal|].
  split; [exact Hshape|]. by apply (Hbg 1%nat 0%nat black).
Defined.

Lemma pixel_threshold (src : matrix Z) (thresh maxval : Z) x y :
  pixel (threshold src thresh maxval) x y =
  (fun p => if thresh <? p then maxval else 0) <$> pixel src x y.
Proof. unfold threshold. apply pixel_fmap. Qed.

(** The segmentation masks are nested: a pixel that is foreground at a
    threshold is foreground at every lower threshold.  A mask holds only 0
    and 255 and has the pixels of the smoothed map. *)
Theorem segmentation_masks_nested `{Cv2} (original : matrix bgr)
    (image2 : image) (t1 t2 linestep : Z) :
  t1 <= t2 ->
  let low := findcontours_body original image2 t1 linestep in
  let high := findcontours_body original image2 t2 linestep in
  (forall x y, pixel (l_thresh high) x y = Some 255 ->
               pixel (l_thresh low) x y = Some 255)
  /\ (forall x y p, pixel (l_thresh low) x y = Some p -> p = 0 \/ p = 255)
  /\ (forall x y, is_Some (pixel (l_thresh low) x y)
                  <-> is_Some (pixel (l_blur low) x y)).
Proof.
  intros Ht low high. subst low high.
  cbn [l_thresh l_blur findcontours_body].
  unfold segmentation_mask. split; [|split].
  - intros x y. rewrite !pixel_threshold.
    destruct (pixel (smoothed_map _ _) x y) as [p|]; [|done]. simpl.
    destruct (Z.ltb_spec t2 p), (Z.ltb_spec t1 p); done || lia.
  - intros x y p. rewrite pixel_threshold.
    destruct (pixel (smoothed_map _ _) x y) as [q|]; [|done]. simpl.
    intros [= <-]. destruct (t1 <? q); auto.
  - intros x y. rewrite pixel_threshold. apply fmap_is_Some.
Qed.

(** Foreground at 120, hence at 30. *)
Lemma segmentation_masks_nested_witness :
  let original := [[BGR 0 0 0; BGR 100 100 100]] in
  let image2 := Color [[BGR 50 50 50; BGR 250 250 250]] in
  pixel (l_thresh (findcontours_body (cv := small_cv2)
                     original image2 30 10)) 1 0 = Some 255.
Proof.
  intros original image2.
  apply (proj1 (segmentation_masks_nested (H := small_cv2)
                  original image2 30 120 10 ltac:(lia))).
  reflexivity.
Defined.



(** * The application window *)

Import InjuryDetectionUi.


Lemma event_nested_ind (P : event -> Prop) :
  (forall path file, P (click_upload path file)) ->
  (forall accepted coords, P (click_crop accepted coords)) ->
  (forall val, P (move_thresh val)) ->
  (forall val, P (move_line val)) ->
  (forall pending, Forall P pending -> P (click_result pending)) ->
  (forall path, P (click_save path)) ->
  (forall path, P (click_save_contour path)) ->
  forall e, P e.
Proof.
  intros Hup Hcrop Hth Hln Hres Hsave Hsc.
  fix IH 1. intros [path file|accepted coords|val|val|pending|path|path];
    [apply Hup|apply Hcrop|apply Hth|apply Hln| |apply Hsave|apply Hsc].
  apply Hres. induction pending as [|e es IHes]; constructor; [apply IH|exact IHes].
Qed.

Lemma step_click_result `{Cv2} (u : t) (pending : list event) :
  step u (click_result pending) =
  if InjuryDetectionApp.result_btn_enabled (self u) then
    match InjuryDetectionApp.injury_img (self u),
          InjuryDetectionApp.cropped_control (self u) with
    | Some _, Some _ => analyse (run u pending)
    | _, _ => u
    end
  else u.
Proof.
  cbn [step]. destruct (InjuryDetectionApp.result_btn_enabled (self u)); [|done].
  destruct (InjuryDetectionApp.injury_img (self u)); [|done].
  by destruct (InjuryDetectionApp.cropped_control (self u)).
Qed.

Lemma in_range_click_result (pending : list event) :
  in_range (click_result pending) <-> Forall in_range pending.
Proof.
  cbn [in_range]. induction pending as [|e es IH]; [by split|].
  rewrite Forall_cons. by rewrite IH.
Qed.

Lemma init_consistent `{Cv2} : consistent init.
Proof.
  unfold consistent, init. cbn. split_and!; done || lia.
Qed.

Lemma upload_injury_consistent `{Cv2} (u : t) path file :
  consistent u -> consistent (upload_injury u path file).
Proof.
  intros Hu. unfold upload_injury.
  destruct (decide (path = "")); [done|].
  destruct file as [[m|m]|]; try done.
  destruct Hu as (_ & _ & _ & _ & _ & _ & Ht & Hl).
  unfold consistent. cbn. split_and!; try done; try lia.
  intros img [= <-]. by exists m.
Qed.

Lemma img_crop_color (img : image) x y w h :
  (exists m, img = Color m) -> exists m, img_crop img x y w h = Color m.
Proof. intros [m ->]. simpl. eauto. Qed.

Lemma crop_control_cases (s : InjuryDetectionApp.t) accepted coords :
  fst (InjuryDetectionApp.crop_control s accepted coords) = s
  \/ exists img x y w h,
       InjuryDetectionApp.injury_img s = Some img
       /\ (fst (InjuryDetectionApp.crop_control s accepted coords)
           = InjuryDetectionApp.set_cropped s (img_crop img x y w h)
           \/ fst (InjuryDetectionApp.crop_control s accepted coords)
              = InjuryDetectionApp.enable_result_btn
                  (InjuryDetectionApp.set_cropped s (img_crop img x y w h))).
Proof.
  unfold InjuryDetectionApp.crop_control.
  destruct (InjuryDetectionApp.injury_img s) as [img|] eqn:Himg; [|by left].
  destruct accepted; [|by left].
  destruct coords as [[[[[x y] w] h]|]|e]; try by left.
  destruct ((w <=? 10) || (h <=? 10)); [by left|].
  right. exists img, x, y, w, h. split; [done|].
  destruct (img_size (img_crop img x y w h) =? 0)%nat; [by left|by right].
Qed.

Lemma crop_control_consistent `{Cv2} (u : t) accepted coords :
  consistent u ->
  consistent
    (with_self u
       (fst (InjuryDetectionApp.crop_control (self u) accepted coords))).
Proof.
  intros Hu.
  destruct (crop_control_cases (self u) accepted coords)
    as [->|(img & x & y & w & h & Himg & [-> | ->])].
  - by destruct u.
  - destruct Hu as (Hc & Hr & Hs & Hres & Himgc & Hctl & Ht & Hl).
    assert (exists m, img_crop img x y w h = Color m) as Hcol
      by (apply img_crop_color, Himgc, Himg).
    unfold consistent. cbn. split_and!; try done; try lia.
    intros c [= <-]. done.
  - destruct Hu as (Hc & Hr & Hs & Hres & Himgc & Hctl & Ht & Hl).
    assert (exists m, img_crop img x y w h = Color m) as Hcol
      by (apply img_crop_color, Himgc, Himg).
    unfold consistent. cbn. split_and!; try done; try lia.
    intros c [= <-]. done.
Qed.

Lemma update_thresh_consistent `{Cv2} (u : t) val :
  3 <= val <= 190 -> consistent u -> consistent (update_thresh u val).
Proof.
  intros Hval (Hc & Hr & Hs & Hres & Himgc & Hctl & Ht & Hl).
  unfold consistent. cbn. split_and!; done || lia.
Qed.

Lemma update_line_consistent `{Cv2} (u : t) val :
  1 <= val <= 50 -> consistent u -> consistent (update_line u val).
Proof.
  intros Hval (Hc & Hr & Hs & Hres & Himgc & Hctl & Ht & Hl).
  unfold consistent. cbn. split_and!; done || lia.
Qed.

Lemma findcontours_Ok_control `{Cv2} image1 image2 t l r :
  findcontours image1 image2 t l = Ok r -> is_Some image2.
Proof.
  unfold findcontours, findcontours_run.
  destruct image1, image2; done.
Qed.

Lemma analyse_consistent `{Cv2} (u : t) :
  consistent u -> consistent (analyse u).
Proof.
  intros Hu. unfold analyse.
  destruct (findcontours _ _ _ _) as [[combined cs]|e] eqn:Hfc; [|done].
  destruct (findcontours_Ok_control _ _ _ _ _ Hfc) as [control Hctl'].
  destruct Hu as (Hc & Hr & Hs & Hres & Himgc & Hctl & Ht & Hl).
  rewrite Hctl' in Hfc.
  unfold consistent. cbn. split_and!; try done; try lia.
  all: intros _; exists control, (InjuryDetectionApp.threshvalue (self u)),
    (InjuryDetectionApp.linestep (self u)), combined, cs; done.
Qed.

Lemma step_run_consistent `{Cv2} :
  forall e u, in_range e -> consistent u -> consistent (step u e).
Proof.
  induction e as [path file|accepted coords|val|val|pending IH|path|path]
    using event_nested_ind; intros u Hin Hu; try done.
  - by apply upload_injury_consistent.
  - cbn [step]. destruct (crop_btn u); [|done].
    by apply crop_control_consistent.
  - by apply update_thresh_consistent.
  - by apply update_line_consistent.
  - rewrite step_click_result.
    destruct (InjuryDetectionApp.result_btn_enabled (self u)); [|done].
    destruct (InjuryDetectionApp.injury_img (self u)); [|done].
    destruct (InjuryDetectionApp.cropped_control (self u)); [|done].
    apply analyse_consistent.
    apply in_range_click_result in Hin. clear -IH Hin Hu.
    unfold run. revert u Hu.
    induction pending as [|e es IHes]; intros u Hu; [done|].
    apply Forall_cons in IH as [He Hes]. apply Forall_cons in Hin as [Hie Hies].
    simpl. apply IHes; [done|done|]. by apply He.
Qed.

Lemma run_consistent `{Cv2} (es : list event) (u : t) :
  Forall in_range es -> consistent u -> consistent (run u es).
Proof.
  unfold run. revert u.
  induction es as [|e es IH]; intros u Hin Hu; [done|].
  apply Forall_cons in Hin as [He Hes]. simpl.
  apply IH; [done|]. by apply step_run_consistent.
Qed.

Lemma findcontours_Ok_subject `{Cv2} image1 image2 t l r :
  findcontours image1 image2 t l = Ok r -> is_Some image1.
Proof.
  unfold findcontours, findcontours_run.
  destruct image1, image2; done.
Qed.

(** Whatever the user does, a button that is enabled finds the attributes
    its handler reads: the image for "Select Control Region", the image and
    the control for "Analyze Image", the composite for "Save Analysis", the
    image and the contours for "Export Contours".  The [None] guards of the
    handlers are never the reason a click does nothing. *)
Theorem enabled_buttons_find_their_data `{Cv2} (es : list event) :
  Forall in_range es ->
  let u := run init es in
  let s := self u in
  (crop_btn u = true -> is_Some (InjuryDetectionApp.injury_img s))
  /\ (InjuryDetectionApp.result_btn_enabled s = true ->
      is_Some (InjuryDetectionApp.injury_img s)
      /\ is_Some (InjuryDetectionApp.cropped_control s))
  /\ (save_btn u = true -> is_Some (InjuryDetectionApp.result_img s))
  /\ (save_contour_btn u = true ->
      is_Some (InjuryDetectionApp.injury_img s)
      /\ is_Some (InjuryDetectionApp.contours s)).
Proof.
  intros Hes u s.
  destruct (run_consistent es init Hes init_consistent)
    as (Hc & Hr & Hs & Hres & _).
  fold u in Hc, Hr, Hs, Hres. fold s in Hc, Hr, Hres.
  split; [exact Hc|]. split; [exact Hr|]. split.
  - intros Hen. destruct (Hres Hen) as (? & ? & ? & ? & ? & _ & _ & _ & -> & _).
    done.
  - intros Hen. rewrite <- Hs in Hen.
    destruct (Hres Hen) as (? & ? & ? & ? & ? & _ & _ & Hfc & _ & ->).
    split; [|done]. by eapply findcontours_Ok_subject.
Qed.

(** Whatever the user does, while "Export Contours" is enabled the stored
    composite and contours are the result of one call of [findcontours] on
    the picture that is loaded now, with a threshold and a line step of the
    sliders' ranges: contours of an earlier picture are never exported with
    a later one. *)
Theorem stored_results_come_from_loaded_image `{Cv2} (es : list event) :
  Forall in_range es ->
  let u := run init es in
  let s := self u in
  save_contour_btn u = true ->
  exists m control threshvalue linestep combined contours,
    InjuryDetectionApp.injury_img s = Some (Color m)
    /\ 3 <= threshvalue <= 190 /\ 1 <= linestep <= 50
    /\ findcontours (Some (Color m)) (Some control) threshvalue linestep
       = Ok (combined, contours)
    /\ InjuryDetectionApp.result_img s = Some combined
    /\ InjuryDetectionApp.contours s = Some contours.
Proof.
  intros Hes u s Hen.
  destruct (run_consistent es init Hes init_consistent)
    as (_ & _ & Hs & Hres & Hcol & _).
  fold u in Hs, Hres, Hcol. fold s in Hres, Hcol.
  rewrite <- Hs in Hen.
  destruct (Hres Hen) as (control & t & l & combined & cs
                          & Ht & Hl & Hfc & Hri & Hcs).
  destruct (findcontours_Ok_subject _ _ _ _ _ Hfc) as [img Himg].
  destruct (Hcol img Himg) as [m ->].
  rewrite Himg in Hfc.
  exists m, control, t, l, combined, cs. done.
Qed.

Lemma session_in_range : Forall InjuryDetectionUi.in_range session.
Proof. repeat constructor; simpl; lia. Qed.

(** After the session above. *)
Lemma enabled_buttons_find_their_data_witness :
  let u := run (H := small_cv2) init session in
  save_contour_btn u = true
  /\ is_Some (InjuryDetectionApp.contours (self u)).
Proof.
  intros u.
  destruct (enabled_buttons_find_their_data (H := small_cv2) session
              session_in_range) as (_ & _ & _ & Hsc).
  split; [reflexivity|]. apply Hsc. reflexivity.
Defined.

(** After the session above. *)
Lemma stored_results_come_from_loaded_image_witness :
  let u := run (H := small_cv2) init session in
  exists m control threshvalue linestep combined contours,
    InjuryDetectionApp.injury_img (self u) = Some (Color m)
    /\ 3 <= threshvalue <= 190 /\ 1 <= linestep <= 50
    /\ findcontours (cv := small_cv2) (Some (Color m)) (Some control)
                    threshvalue linestep
       = Ok (combined, contours)
    /\ InjuryDetectionApp.result_img (self u) = Some combined
    /\ InjuryDetectionApp.contours (self u) = Some contours.
Proof.
  intros u.
  apply (stored_results_come_from_loaded_image (H := small_cv2) session
           session_in_range).
  reflexivity.
Defined.
